(** * torch/csrc/autograd/function.cpp

    A shallow embedding of the autograd [Function] core: the flag
    resolver [makeFlags] with its three [Function::flags] overloads, and
    the trace bridge [Function::tracedApply] with the context-edge linker
    [Function::setUpContextEdge].

    Conventions.
    - A [variable] (the class [Variable]) is a handle: [None] is the
      undefined variable (null implementation pointer), [Some v] a
      defined one.  The accessors
      [requires_grad], [is_volatile], [grad_fn], [output_nr] and
      [grad_accumulator] exist on defined variables only, as in the code,
      which reads them under [var.defined()].
    - [std::shared_ptr<Function>] is [option FnRef] ([None] is the null
      pointer); C++ [int] values are [Z].
    - Container sizes are natural numbers: a vector whose size does not
      fit the [int] counter [num_inputs] is outside the model. *)

From stdpp Require Import base option list strings gmap.
From Stdlib Require Import ZArith Lia.

Local Open Scope Z_scope.

(** ** Data model *)

(** Address of a [Function] object held through a shared pointer. *)
Definition FnRef : Type := N.

(** Address of the tensor data behind a variable ([var.data()]). *)
Definition DataRef : Type := N.

Record VariableImpl : Type := mkVariableImpl {
  requires_grad    : bool;
  is_volatile      : bool;
  grad_fn          : option FnRef;
  output_nr        : Z;
  grad_accumulator : option FnRef;
  data             : DataRef;
}.

Definition variable : Type := option VariableImpl.

Definition defined (var : variable) : bool :=
  match var with Some _ => true | None => false end.

Definition variable_list : Type := list variable.

(** One entry of [next_functions]: [std::pair<std::shared_ptr<Function>, int>]. *)
Definition Edge : Type := option FnRef * Z.

(** The value-initialised pair that [resize] fills the table with. *)
Definition default_edge : Edge := (None, 0).

(** [f_is_volatile] is the field [is_volatile] of [FunctionFlags]; the
    plain name is the accessor of the variable. *)
Record FunctionFlags : Type := mkFunctionFlags {
  is_executable  : bool;
  f_is_volatile  : bool;
  next_functions : list Edge;
}.

#[global] Instance VariableImpl_eq_dec : EqDecision VariableImpl.
Proof. solve_decision. Defined.

#[global] Instance FunctionFlags_eq_dec : EqDecision FunctionFlags.
Proof. solve_decision. Defined.

(** ** The flag resolver *)

(** What [makeFlags] needs of its template argument [T]: [size()] and an
    iteration from [begin()] to [end()] that yields variables. *)
Class InputSequence (T : Type) : Type := {
  seq_size  : T → nat;
  seq_items : T → list variable;
  seq_size_items : ∀ t, seq_size t = length (seq_items t);
}.

(** The body of the [for] loop at position [i] on the element [var]. *)
Definition makeFlags_body (f : FunctionFlags) (i : nat) (var : variable)
  : FunctionFlags :=
  match var with
  | Some v =>
      let exec := orb (is_executable f) (requires_grad v) in
      let vol  := orb (f_is_volatile f) (is_volatile v) in
      match grad_fn v with
      | Some fn =>
          mkFunctionFlags exec vol
            (<[i := (Some fn, output_nr v)]> (next_functions f))
      | None =>
          mkFunctionFlags exec vol
            (<[i := (grad_accumulator v, 0)]> (next_functions f))
      end
  | None => f
  end.

(** [for (auto it = inputs.begin(); it != inputs.end(); ++it, ++i)]. *)
Fixpoint makeFlags_loop (it : list variable) (i : nat) (f : FunctionFlags)
  : FunctionFlags :=
  match it with
  | [] => f
  | var :: rest => makeFlags_loop rest (S i) (makeFlags_body f i var)
  end.

Definition makeFlags {T : Type} `{InputSequence T} (inputs : T)
  : FunctionFlags :=
  let num_inputs := seq_size inputs in
  let f := mkFunctionFlags false false (resize num_inputs default_edge []) in
  let f := makeFlags_loop (seq_items inputs) 0%nat f in
  mkFunctionFlags (andb (is_executable f) (negb (f_is_volatile f)))
                  (f_is_volatile f)
                  (next_functions f).

(** The edge the table is expected to hold for one input: the producing
    node with its output number, the gradient accumulator with 0 for a
    leaf, the value-initialised pair for an undefined input. *)
Definition expected_edge (var : variable) : Edge :=
  match var with
  | Some v =>
      match grad_fn v with
      | Some fn => (Some fn, output_nr v)
      | None => (grad_accumulator v, 0)
      end
  | None => default_edge
  end.

(** *** The three containers [Function::flags] is overloaded on *)

(** [variable_list] is [std::vector<Variable>]. *)
#[global] Instance variable_list_seq : InputSequence variable_list := {
  seq_size  := length;
  seq_items := id;
  seq_size_items := λ _, eq_refl;
}.

(** [std::initializer_list<Variable>]: a read-only view of an array. *)
Record initializer_list : Type := mkInitializerList {
  il_array : list variable;
}.

#[global] Instance initializer_list_seq : InputSequence initializer_list := {
  seq_size il  := length (il_array il);
  seq_items il := il_array il;
  seq_size_items := λ _, eq_refl;
}.

(** [at::TensorList] is an array reference over tensors.  [Variable]
    derives from [at::Tensor] and is constructed from one by sharing its
    implementation pointer; the tensor type and that converting
    constructor are declared outside this file and taken as parameters. *)
Section Flags.
Context {Tensor : Type}.
Context (variable_of_Tensor : Tensor → variable).

Definition TensorList : Type := list Tensor.

(** [variable_list(inputs.begin(), inputs.end())]. *)
Definition variable_list_of_range (inputs : TensorList) : variable_list :=
  map variable_of_Tensor inputs.

Definition flags_variable_list (inputs : variable_list) : FunctionFlags :=
  makeFlags inputs.

Definition flags_initializer_list (inputs : initializer_list)
  : FunctionFlags :=
  makeFlags inputs.

Definition flags_TensorList (inputs : TensorList) : FunctionFlags :=
  makeFlags (variable_list_of_range inputs).
End Flags.

(** ** The trace bridge *)

(** Everything [tracedApply] and [setUpContextEdge] do is a call into a
    collaborator declared outside this file: the tracer, the jit graph,
    the virtual methods [apply] and [saved_variables] of the concrete
    node, and the [Eval] registry.  The two methods are embedded as
    programs over these calls; a program is run against an arbitrary
    handler that answers each call (or raises from it) and threads the
    collaborators' state.  The run records every call with its answer. *)

Definition StateRef : Type := N.   (* std::shared_ptr<tracer::TracingState> *)
Definition GraphRef : Type := N.   (* jit::Graph* *)
Definition NodePtr  : Type := N.   (* jit::Node*; 0 is the null pointer *)
Definition EvalRef  : Type := N.   (* Eval* *)
Definition SavedVariable : Type := N.

Inductive JitType : Type :=
| HandleType
| TensorTypeOf (d : DataRef).

Inductive exception : Type :=
| runtime_error (what : string)
| foreign_exception (code : N).

Inductive Call : Type :=
| GetTracingState (inputs : variable_list)
| StateLock (state : StateRef)
| StateUnlock (state : StateRef)
| StateGraph (state : StateRef)
| CreateCppOp (graph : GraphRef) (fn : FnRef)
| GetValueTrace (state : StateRef) (var : variable)
| AddInput (node : NodePtr) (value : NodePtr)
| AppendNode (graph : GraphRef) (node : NodePtr)
| Apply (fn : FnRef) (inputs : variable_list)
| CreateSelect (graph : GraphRef) (node : NodePtr) (offset : Z)
| InferTypeFrom (node : NodePtr) (d : DataRef)
| SetValueTrace (state : StateRef) (var : variable) (node : NodePtr)
| ForwardCtxSelect (eval : EvalRef)
| SavedVariables (fn : FnRef)
| Unpack (saved_var : SavedVariable) (fn : FnRef)
| NontraceableBackwardSubgraph (inputs outputs : variable_list)
| OwningGraph (node : NodePtr)
| SetType (node : NodePtr) (ty : JitType)
| GetBackwardEval (inputs outputs : variable_list)
| SetForwardCtxSelect (eval : EvalRef) (node : NodePtr).

(** The C++ result type of each call. *)
Definition ret_type (c : Call) : Type :=
  match c with
  | GetTracingState _ => StateRef
  | StateGraph _ | OwningGraph _ => GraphRef
  | CreateCppOp _ _ | GetValueTrace _ _ | AppendNode _ _
  | CreateSelect _ _ _ | ForwardCtxSelect _ => NodePtr
  | Apply _ _ => variable_list
  | SavedVariables _ => option (list SavedVariable)
  | Unpack _ _ => variable
  | GetBackwardEval _ _ => option EvalRef
  | StateLock _ | StateUnlock _ | AddInput _ _ | InferTypeFrom _ _
  | SetValueTrace _ _ _ | NontraceableBackwardSubgraph _ _
  | SetType _ _ | SetForwardCtxSelect _ _ => unit
  end.

Inductive Prog (A : Type) : Type :=
| Ret (a : A)
| Throw (e : exception)
| Vis (c : Call) (k : ret_type c → Prog A).

Arguments Ret {A} a.
Arguments Throw {A} e.
Arguments Vis {A} c k.

Fixpoint bind {A B : Type} (p : Prog A) (k : A → Prog B) : Prog B :=
  match p with
  | Ret a => k a
  | Throw e => Throw e
  | Vis c k' => Vis c (λ r, bind (k' r) k)
  end.

#[global] Instance Prog_ret : MRet Prog := @Ret.
#[global] Instance Prog_bind : MBind Prog := λ A B k p, bind p k.

Definition call (c : Call) : Prog (ret_type c) := Vis c Ret.

(** *** Running a program *)

(** A run answers the calls of a program one after the other and records
    them.  A call that raises ends the run there: neither method catches
    anything, so the exception leaves the method; what stack unwinding
    does on the way out is not recorded.  In particular, when a
    collaborator raises while the lock guard owns the lock, the release
    of the lock by the destructor of the guard is not part of the trace:
    the trace ends at the call that raised. *)

Record Event : Type := Ev {
  ev_call : Call;
  ev_resp : exception + ret_type ev_call;
}.

Inductive outcome (A : Type) : Type :=
| Returned (a : A)
| Raised (e : exception).

Arguments Returned {A} a.
Arguments Raised {A} e.

Definition handler (W : Type) : Type :=
  ∀ c : Call, W → (exception + ret_type c) * W.

Fixpoint run {W A : Type} (h : handler W) (p : Prog A) (w : W)
  : list Event * outcome A * W :=
  match p with
  | Ret a => ([], Returned a, w)
  | Throw e => ([], Raised e, w)
  | Vis c k =>
      match h c w with
      | (inl e, w1) => ([Ev c (inl e)], Raised e, w1)
      | (inr r, w1) =>
          let '(tr, o, w2) := run h (k r) w1 in (Ev c (inr r) :: tr, o, w2)
      end
  end.

Definition trace_of {A W : Type} (r : list Event * outcome A * W)
  : list Event := r.1.1.
Definition outcome_of {A W : Type} (r : list Event * outcome A * W)
  : outcome A := r.1.2.
Definition world_of {A W : Type} (r : list Event * outcome A * W) : W := r.2.

(** *** The node *)

(** What the two methods read of [*this]: the shared pointer to itself,
    the type name, the two capability methods, the result of
    [dynamic_cast<Eval*>(this)] and the flag of its [tracing_state]. *)
Record Function : Type := mkFunction {
  getSharedPtr               : FnRef;
  typeid_name                : string;
  is_traceable               : bool;
  passes_state_transparently : bool;
  this_eval                  : option EvalRef;
  in_eval_subgraph           : bool;
}.

(** [Function::name]. *)
Definition name (f : Function) : string := typeid_name f.

(** *** [Function::tracedApply] *)

(** [for (auto& input : inputs)
       this_node->addInput(tracer::getValueTrace(state, input));] *)
Fixpoint add_inputs (state : StateRef) (this_node : NodePtr)
    (inputs : list variable) : Prog unit :=
  match inputs with
  | [] => Ret tt
  | input :: rest =>
      value ← call (GetValueTrace state input);
      call (AddInput this_node value);;
      add_inputs state this_node rest
  end.

(** The loop "Set up output traces", entered with [i = 0]; [outputs] is
    the part of the vector from position [i] on. *)
Fixpoint output_traces (state : StateRef) (graph : GraphRef)
    (this_node : NodePtr) (outputs : list variable) (i : Z) : Prog unit :=
  match outputs with
  | [] => Ret tt
  | output :: rest =>
      n ← call (CreateSelect graph this_node i);
      sel ← call (AppendNode graph n);
      match output with
      | Some v =>
          call (InferTypeFrom sel (data v));;
          call (SetValueTrace state output sel)
      | None => Ret tt
      end;;
      output_traces state graph this_node rest (i + 1)
  end.

(** [for (auto& saved_var : *saved_vars)
       bw_subgraph_inputs.emplace_back(saved_var.unpack(getSharedPtr()));] *)
Fixpoint unpack_saved (fn : FnRef) (saved_vars : list SavedVariable)
    (bw_subgraph_inputs : variable_list) : Prog variable_list :=
  match saved_vars with
  | [] => Ret bw_subgraph_inputs
  | saved_var :: rest =>
      v ← call (Unpack saved_var fn);
      unpack_saved fn rest (bw_subgraph_inputs ++ [v])
  end.

Definition setUpContextEdge (node : NodePtr) (ctx_output_nr : Z)
    (inputs outputs : variable_list) : Prog unit :=
  graph ← call (OwningGraph node);
  n ← call (CreateSelect graph node ctx_output_nr);
  ctx_select ← call (AppendNode graph n);
  call (SetType ctx_select HandleType);;
  backward_eval ← call (GetBackwardEval inputs outputs);
  match backward_eval with
  | Some eval => call (SetForwardCtxSelect eval ctx_select)
  | None => Ret tt
  end.

Definition missing_saved_variables (f : Function) : exception :=
  runtime_error ("saved_variables() needed but not implemented in " +:+ name f).

(** The block under [if (!passes_state_transparently())].  The lock guard
    [state_lock] owns the lock here, so its destructor releases the lock
    when the [throw] leaves the method. *)
Definition trace_backward (f : Function) (state : StateRef)
    (this_node : NodePtr) (num_outputs : Z) (inputs outputs : variable_list)
  : Prog unit :=
  match this_eval f with
  | Some eval =>
      ctx ← call (ForwardCtxSelect eval);
      call (AddInput this_node ctx)
  | None => Ret tt
  end;;
  let should_trace_backward := in_eval_subgraph f in
  (if negb should_trace_backward then
     saved_vars ← call (SavedVariables (getSharedPtr f));
     match saved_vars with
     | None =>
         call (StateUnlock state);;
         Throw (missing_saved_variables f)
     | Some saved_vars =>
         bw_subgraph_inputs ← unpack_saved (getSharedPtr f) saved_vars inputs;
         call (NontraceableBackwardSubgraph bw_subgraph_inputs outputs)
     end
   else Ret tt);;
  let has_backwards_eval :=
    orb (negb should_trace_backward) (bool_decide (is_Some (this_eval f))) in
  if has_backwards_eval
  then setUpContextEdge this_node num_outputs inputs outputs
  else Ret tt.

(** [state_lock] is the guard [state->lock()] returns; its [unlock()]
    and [lock()] are [StateUnlock] and [StateLock] on [state], and the
    last [StateUnlock] is its destructor at [return outputs]. *)
Definition tracedApply (f : Function) (inputs : variable_list)
  : Prog variable_list :=
  if is_traceable f then call (Apply (getSharedPtr f) inputs)
  else
    state ← call (GetTracingState inputs);
    call (StateLock state);;
    graph ← call (StateGraph state);
    this_node ← call (CreateCppOp graph (getSharedPtr f));
    add_inputs state this_node inputs;;
    call (AppendNode graph this_node);;
    call (StateUnlock state);;
    outputs ← call (Apply (getSharedPtr f) inputs);
    call (StateLock state);;
    let num_outputs := Z.of_nat (length outputs) in
    output_traces state graph this_node outputs 0;;
    (if negb (passes_state_transparently f)
     then trace_backward f state this_node num_outputs inputs outputs
     else Ret tt);;
    call (StateUnlock state);;
    Ret outputs.

(** *** Reading a trace *)

(** The calls of [apply], each with the node, the inputs and the answer. *)
Definition apply_call (ev : Event)
  : option (FnRef * variable_list * (exception + variable_list)) :=
  match ev with
  | Ev (Apply fn inputs) r => Some (fn, inputs, r)
  | _ => None
  end.

Definition saved_variables_call (ev : Event)
  : option (FnRef * (exception + option (list SavedVariable))) :=
  match ev with
  | Ev (SavedVariables fn) r => Some (fn, r)
  | _ => None
  end.

Definition unpack_call (ev : Event)
  : option (SavedVariable * FnRef * (exception + variable)) :=
  match ev with
  | Ev (Unpack saved_var fn) r => Some (saved_var, fn, r)
  | _ => None
  end.

Definition backward_subgraph_call (ev : Event)
  : option (variable_list * variable_list) :=
  match ev with
  | Ev (NontraceableBackwardSubgraph inputs outputs) _ =>
      Some (inputs, outputs)
  | _ => None
  end.

Definition cpp_op_call (ev : Event)
  : option (GraphRef * FnRef * (exception + NodePtr)) :=
  match ev with
  | Ev (CreateCppOp graph fn) r => Some (graph, fn, r)
  | _ => None
  end.

(** [setUpContextEdge] starts by asking its node for the owning graph,
    and nothing else in the file does: these calls mark its entries. *)
Definition owning_graph_call (ev : Event) : option NodePtr :=
  match ev with
  | Ev (OwningGraph node) _ => Some node
  | _ => None
  end.

(** The lookups of the backward [Eval] in the registry. *)
Definition backward_eval_lookup (ev : Event)
  : option (variable_list * variable_list * (exception + option EvalRef)) :=
  match ev with
  | Ev (GetBackwardEval inputs outputs) r => Some (inputs, outputs, r)
  | _ => None
  end.

(** The select nodes asked of the graph: graph, node and offset. *)
Definition select_call (ev : Event) : option (GraphRef * NodePtr * Z) :=
  match ev with
  | Ev (CreateSelect graph node offset) _ => Some (graph, node, offset)
  | _ => None
  end.

(** The releases of the lock that raised. *)
Definition release_failure (ev : Event) : option (StateRef * exception) :=
  match ev with
  | Ev (StateUnlock state) (inl e) => Some (state, e)
  | _ => None
  end.

(** The events of a trace that [g] recognises, in order. *)
Fixpoint collect {B : Type} (g : Event → option B) (tr : list Event)
  : list B :=
  match tr with
  | [] => []
  | ev :: rest =>
      match g ev with
      | Some b => b :: collect g rest
      | None => collect g rest
      end
  end.

Definition apply_calls (tr : list Event) := collect apply_call tr.
Definition saved_variables_calls (tr : list Event) :=
  collect saved_variables_call tr.
Definition unpack_calls (tr : list Event) := collect unpack_call tr.
Definition backward_subgraph_calls (tr : list Event) :=
  collect backward_subgraph_call tr.
Definition cpp_op_calls (tr : list Event) := collect cpp_op_call tr.
Definition setUpContextEdge_calls (tr : list Event) :=
  collect owning_graph_call tr.
Definition backward_eval_lookups (tr : list Event) :=
  collect backward_eval_lookup tr.
Definition select_calls (tr : list Event) := collect select_call tr.
Definition failed_releases (tr : list Event) := collect release_failure tr.

(** How a call relates to the exclusive section of the tracing state. *)
Inductive CallKind : Type :=
| Acquire | Release | Forward | Mutation | Neutral.

Definition call_kind (c : Call) : CallKind :=
  match c with
  | StateLock _ => Acquire
  | StateUnlock _ => Release
  | Apply _ _ => Forward
  | CreateCppOp _ _ | GetValueTrace _ _ | AddInput _ _ | AppendNode _ _
  | CreateSelect _ _ _ | InferTypeFrom _ _ | SetValueTrace _ _ _
  | SetType _ _ | NontraceableBackwardSubgraph _ _
  | SetForwardCtxSelect _ _ => Mutation
  | _ => Neutral
  end.

Definition succeeded (ev : Event) : bool :=
  match ev_resp ev with inr _ => true | inl _ => false end.

(** Replays a trace against the lock guard, [held] telling whether the
    guard owns the lock: the lock is never taken twice nor released when
    not owned, the graph and the value traces are only touched while it
    is owned, and [apply] only runs while it is not. *)
Fixpoint lock_discipline (held : bool) (tr : list Event) : bool :=
  match tr with
  | [] => true
  | ev :: rest =>
      match call_kind (ev_call ev) with
      | Acquire => negb held && lock_discipline true rest
      | Release => held && lock_discipline false rest
      | Forward => negb held && lock_discipline held rest
      | Mutation => held && lock_discipline held rest
      | Neutral => lock_discipline held rest
      end
  end.

Definition is_kind (k : CallKind) (ev : Event) : bool :=
  match call_kind (ev_call ev), k with
  | Acquire, Acquire | Release, Release | Forward, Forward
  | Mutation, Mutation | Neutral, Neutral => true
  | _, _ => false
  end.

(** Every call of [apply] comes right after a release of the lock and,
    when it returns, is followed at once by an acquisition; [prev] is the
    event before [tr]. *)
Fixpoint apply_bracketed (prev : option Event) (tr : list Event) : bool :=
  match tr with
  | [] => true
  | ev :: rest =>
      (if is_kind Forward ev then
         match prev with
         | Some p => is_kind Release p && succeeded p
         | None => false
         end
         && match rest with
            | [] => negb (succeeded ev)
            | next :: _ => succeeded ev && is_kind Acquire next
            end
       else true)
      && apply_bracketed (Some ev) rest
  end.

(** *** A reference tracer *)

(** Modelled from the spec: the jit graph ([torch/csrc/jit/ir.h]), the
    tracer and the [Eval] registry are not part of this file.  This
    handler gives them the behaviour the external interfaces describe: one
    tracing state with one graph; [createCppOp] and [createSelect] allocate
    a node, [appendNode] puts it at the end of the graph and returns it,
    [getValueTrace] resolves the node recorded for a variable or creates
    one, [setValueTrace] records it.  The node's own methods and the
    registry lookup are given by a [Collaborators] record. *)
Inductive NodeKind : Type :=
| CppOp (fn : FnRef)
| Select (offset : Z)
| Constant (var : variable).

Record Node : Type := mkNode {
  node_kind   : NodeKind;
  node_inputs : list NodePtr;
  node_type   : option JitType;
}.

Record Tracer : Type := mkTracer {
  nodes              : gmap NodePtr Node;
  graph_nodes        : list NodePtr;
  value_traces       : list (variable * NodePtr);
  lock_held          : bool;
  forward_ctx_select : gmap EvalRef NodePtr;
  backward_subgraphs : list (variable_list * variable_list);
}.

Record Collaborators : Type := mkCollaborators {
  apply_fn           : FnRef → variable_list → exception + variable_list;
  saved_variables_fn : FnRef → option (list SavedVariable);
  unpack_fn          : SavedVariable → FnRef → variable;
  getBackwardEval_fn : variable_list → variable_list → option EvalRef;
}.

Definition the_state : StateRef := 1%N.
Definition the_graph : GraphRef := 1%N.

Definition set_nodes (m : gmap NodePtr Node) (w : Tracer) : Tracer :=
  mkTracer m (graph_nodes w) (value_traces w) (lock_held w)
           (forward_ctx_select w) (backward_subgraphs w).
Definition set_graph_nodes (l : list NodePtr) (w : Tracer) : Tracer :=
  mkTracer (nodes w) l (value_traces w) (lock_held w)
           (forward_ctx_select w) (backward_subgraphs w).
Definition set_value_traces (l : list (variable * NodePtr)) (w : Tracer)
  : Tracer :=
  mkTracer (nodes w) (graph_nodes w) l (lock_held w)
           (forward_ctx_select w) (backward_subgraphs w).
Definition set_lock_held (b : bool) (w : Tracer) : Tracer :=
  mkTracer (nodes w) (graph_nodes w) (value_traces w) b
           (forward_ctx_select w) (backward_subgraphs w).
Definition set_forward_ctx_select (m : gmap EvalRef NodePtr) (w : Tracer)
  : Tracer :=
  mkTracer (nodes w) (graph_nodes w) (value_traces w) (lock_held w)
           m (backward_subgraphs w).
Definition set_backward_subgraphs (l : list (variable_list * variable_list))
    (w : Tracer) : Tracer :=
  mkTracer (nodes w) (graph_nodes w) (value_traces w) (lock_held w)
           (forward_ctx_select w) l.

(** A non-null address no node lives at. *)
Definition fresh_node (w : Tracer) : NodePtr :=
  fresh ({[0%N]} ∪ dom (nodes w)).

Definition create_node (n : Node) (w : Tracer) : NodePtr * Tracer :=
  let p := fresh_node w in (p, set_nodes (<[p := n]> (nodes w)) w).

Definition update_node (p : NodePtr) (g : Node → Node) (w : Tracer) : Tracer :=
  set_nodes (alter g p (nodes w)) w.

Fixpoint find_value_trace (var : variable) (l : list (variable * NodePtr))
  : option NodePtr :=
  match l with
  | [] => None
  | (var', p) :: rest =>
      if decide (var = var') then Some p else find_value_trace var rest
  end.

Definition reference_tracer (env : Collaborators) : handler Tracer :=
  λ c,
    match c return Tracer → (exception + ret_type c) * Tracer with
    | GetTracingState _ => λ w, (inr the_state, w)
    | StateLock _ => λ w, (inr tt, set_lock_held true w)
    | StateUnlock _ => λ w, (inr tt, set_lock_held false w)
    | StateGraph _ => λ w, (inr the_graph, w)
    | CreateCppOp _ fn => λ w,
        let '(p, w) := create_node (mkNode (CppOp fn) [] None) w in
        (inr p, w)
    | GetValueTrace _ var => λ w,
        match find_value_trace var (value_traces w) with
        | Some p => (inr p, w)
        | None =>
            let '(p, w) := create_node (mkNode (Constant var) [] None) w in
            let w := set_graph_nodes (graph_nodes w ++ [p]) w in
            (inr p, set_value_traces ((var, p) :: value_traces w) w)
        end
    | AddInput node value => λ w,
        (inr tt,
         update_node node
           (λ n, mkNode (node_kind n) (node_inputs n ++ [value]) (node_type n))
           w)
    | AppendNode _ node => λ w,
        (inr node, set_graph_nodes (graph_nodes w ++ [node]) w)
    | Apply fn inputs => λ w, (apply_fn env fn inputs, w)
    | CreateSelect _ node offset => λ w,
        let '(p, w) := create_node (mkNode (Select offset) [node] None) w in
        (inr p, w)
    | InferTypeFrom node d => λ w,
        (inr tt,
         update_node node
           (λ n, mkNode (node_kind n) (node_inputs n) (Some (TensorTypeOf d)))
           w)
    | SetValueTrace _ var node => λ w,
        (inr tt, set_value_traces ((var, node) :: value_traces w) w)
    | ForwardCtxSelect eval => λ w,
        (inr (default 0%N (forward_ctx_select w !! eval)), w)
    | SavedVariables fn => λ w, (inr (saved_variables_fn env fn), w)
    | Unpack saved_var fn => λ w, (inr (unpack_fn env saved_var fn), w)
    | NontraceableBackwardSubgraph inputs outputs => λ w,
        (inr tt,
         set_backward_subgraphs (backward_subgraphs w ++ [(inputs, outputs)]) w)
    | OwningGraph _ => λ w, (inr the_graph, w)
    | SetType node ty => λ w,
        (inr tt,
         update_node node
           (λ n, mkNode (node_kind n) (node_inputs n) (Some ty)) w)
    | GetBackwardEval inputs outputs => λ w,
        (inr (getBackwardEval_fn env inputs outputs), w)
    | SetForwardCtxSelect eval node => λ w,
        (inr tt,
         set_forward_ctx_select (<[eval := node]> (forward_ctx_select w)) w)
    end.

Definition empty_tracer : Tracer := mkTracer ∅ [] [] false ∅ [].

(** *** Sample nodes and inputs *)

Definition leaf (rg vol : bool) (acc : option FnRef) (d : DataRef) : variable :=
  Some (mkVariableImpl rg vol None 0 acc d).

Definition sample_inputs : variable_list :=
  [leaf true false (Some 7%N) 100%N; None].

Definition sample_outputs : variable_list :=
  [Some (mkVariableImpl true false (Some 3%N) 0 None 200%N)].

(** A plain node: not traceable, not transparent, not an [Eval]. *)
Definition sample_node (nested : bool) : Function :=
  mkFunction 3%N "AddBackward" false false None nested.

(** An [Eval] node. *)
Definition sample_eval (nested : bool) : Function :=
  mkFunction 4%N "Eval" false false (Some 9%N) nested.

(** A world in which [apply] returns [sample_outputs]; [saved] is what
    [saved_variables] returns, and the registry knows [found]. *)
Definition sample_env (saved : option (list SavedVariable))
    (found : option EvalRef) : Collaborators :=
  mkCollaborators
    (λ _ _, inr sample_outputs)
    (λ _, saved)
    (λ sv _, leaf false false None sv)
    (λ _ _, found).

Definition sample_run (f : Function) (saved : option (list SavedVariable))
    (found : option EvalRef) :=
  run (reference_tracer (sample_env saved found))
      (tracedApply f sample_inputs) empty_tracer.

(** *** Properties of all runs *)

(** [traces p Q]: whatever the collaborators answer, the calls [p] makes
    and the way it ends satisfy [Q]. *)
Definition traces {A : Type} (p : Prog A)
    (Q : list Event → outcome A → Prop) : Prop :=
  ∀ (W : Type) (h : handler W) (w : W),
    Q (trace_of (run h p w)) (outcome_of (run h p w)).

(** The calls each of the three loops makes. *)
Definition input_event (ev : Event) : bool :=
  match ev_call ev with
  | GetValueTrace _ _ | AddInput _ _ => true
  | _ => false
  end.

Definition output_event (ev : Event) : bool :=
  match ev_call ev with
  | CreateSelect _ _ _ | AppendNode _ _ | InferTypeFrom _ _
  | SetValueTrace _ _ _ => true
  | _ => false
  end.

Definition unpack_event (ev : Event) : bool :=
  match ev_call ev with
  | Unpack _ _ => true
  | _ => false
  end.

(** The calls that leave the lock guard alone and may be made while it
    owns the lock. *)
Definition under_lock (ev : Event) : bool :=
  is_kind Mutation ev || is_kind Neutral ev.

(** The event a trace [tr] leaves as the latest one, [prev] being the
    latest before it. *)
Definition latest (prev : option Event) (tr : list Event) : option Event :=
  match last tr with Some ev => Some ev | None => prev end.

(** *** Further readings of a trace *)

(** The calls that raised, each with its exception. *)
Definition failure (ev : Event) : option (Call * exception) :=
  match ev_resp ev with
  | inl e => Some (ev_call ev, e)
  | inr _ => None
  end.

Definition tracing_state_call (ev : Event)
  : option (variable_list * (exception + StateRef)) :=
  match ev with
  | Ev (GetTracingState inputs) r => Some (inputs, r)
  | _ => None
  end.

(** The operations on the lock guard: [true] for [lock()], [false] for
    [unlock()], each with the tracing state whose lock it is. *)
Definition lock_call (ev : Event) : option (bool * StateRef) :=
  match ev with
  | Ev (StateLock state) _ => Some (true, state)
  | Ev (StateUnlock state) _ => Some (false, state)
  | _ => None
  end.

Definition value_trace_call (ev : Event)
  : option (StateRef * variable * (exception + NodePtr)) :=
  match ev with
  | Ev (GetValueTrace state var) r => Some (state, var, r)
  | _ => None
  end.

Definition add_input_call (ev : Event) : option (NodePtr * NodePtr) :=
  match ev with
  | Ev (AddInput node value) _ => Some (node, value)
  | _ => None
  end.

Definition infer_type_call (ev : Event) : option (NodePtr * DataRef) :=
  match ev with
  | Ev (InferTypeFrom node d) _ => Some (node, d)
  | _ => None
  end.

Definition set_value_trace_call (ev : Event)
  : option (StateRef * variable * NodePtr) :=
  match ev with
  | Ev (SetValueTrace state var node) _ => Some (state, var, node)
  | _ => None
  end.

Definition append_call (ev : Event)
  : option (GraphRef * NodePtr * (exception + NodePtr)) :=
  match ev with
  | Ev (AppendNode graph node) r => Some (graph, node, r)
  | _ => None
  end.

Definition forward_ctx_read (ev : Event)
  : option (EvalRef * (exception + NodePtr)) :=
  match ev with
  | Ev (ForwardCtxSelect eval) r => Some (eval, r)
  | _ => None
  end.

Definition forward_ctx_assignment (ev : Event)
  : option (EvalRef * NodePtr) :=
  match ev with
  | Ev (SetForwardCtxSelect eval node) _ => Some (eval, node)
  | _ => None
  end.

Definition set_type_call (ev : Event) : option (NodePtr * JitType) :=
  match ev with
  | Ev (SetType node ty) _ => Some (node, ty)
  | _ => None
  end.

Definition failures (tr : list Event) := collect failure tr.
Definition tracing_state_calls (tr : list Event) :=
  collect tracing_state_call tr.
Definition lock_calls (tr : list Event) := collect lock_call tr.
Definition value_trace_calls (tr : list Event) :=
  collect value_trace_call tr.
Definition add_input_calls (tr : list Event) := collect add_input_call tr.
Definition infer_type_calls (tr : list Event) := collect infer_type_call tr.
Definition set_value_trace_calls (tr : list Event) :=
  collect set_value_trace_call tr.
Definition append_calls (tr : list Event) := collect append_call tr.
Definition forward_ctx_reads (tr : list Event) :=
  collect forward_ctx_read tr.
Definition forward_ctx_assignments (tr : list Event) :=
  collect forward_ctx_assignment tr.
Definition set_type_calls (tr : list Event) := collect set_type_call tr.

(** How a run without [throw] of its own ends: by returning after calls
    that all answered, or at the one call that raised. *)
Definition ended_by_call {A : Type} (tr : list Event) (o : outcome A)
  : Prop :=
  match o with
  | Returned _ => failures tr = []
  | Raised e => ∃ c, failures tr = [(c, e)]
  end.

(** The value traces the output loop records: one for each defined
    output, on the select node of its position. *)
Fixpoint output_value_traces (state : StateRef) (outputs : list variable)
    (sels : list NodePtr) : list (StateRef * variable * NodePtr) :=
  match outputs, sels with
  | Some v :: outputs, sel :: sels =>
      (state, Some v, sel) :: output_value_traces state outputs sels
  | None :: outputs, _ :: sels => output_value_traces state outputs sels
  | _, _ => []
  end.

(** The types the output loop infers: from the data of each defined
    output, on the select node of its position. *)
Fixpoint output_types (outputs : list variable) (sels : list NodePtr)
  : list (NodePtr * DataRef) :=
  match outputs, sels with
  | Some v :: outputs, sel :: sels => (sel, data v) :: output_types outputs sels
  | None :: outputs, _ :: sels => output_types outputs sels
  | _, _ => []
  end.

(** A traceable node, a transparent one, and a world in which [apply]
    raises. *)
Definition sample_traceable : Function :=
  mkFunction 5%N "Traceable" true false None false.

Definition sample_transparent : Function :=
  mkFunction 6%N "Transparent" false true (Some 9%N) false.

Definition failing_env (e : exception) : Collaborators :=
  mkCollaborators (λ _ _, inl e) (λ _, None)
                  (λ sv _, leaf false false None sv) (λ _ _, None).

(** *** The lock of one tracing state *)

(** What one call does to the lock guard of [state], [held] telling
    whether the guard owns the lock: [None] when the call breaks the
    discipline, the new ownership otherwise.  The lock of [state] is the
    only one touched, it is not taken when owned nor released when not;
    the graph, the value traces of [state] and the bookkeeping of the
    backward pass are only touched while it is owned; [apply] only runs
    while it is not. *)
Definition guard_step (state : StateRef) (held : bool) (ev : Event)
  : option bool :=
  match ev_call ev with
  | StateLock st => if N.eqb st state && negb held then Some true else None
  | StateUnlock st => if N.eqb st state && held then Some false else None
  | Apply _ _ => if held then None else Some false
  | GetValueTrace st _ | SetValueTrace st _ _ =>
      if N.eqb st state && held then Some true else None
  | StateGraph st => if N.eqb st state then Some held else None
  | CreateCppOp _ _ | AddInput _ _ | AppendNode _ _ | CreateSelect _ _ _
  | InferTypeFrom _ _ | SetType _ _ | NontraceableBackwardSubgraph _ _
  | SetForwardCtxSelect _ _ => if held then Some true else None
  | _ => Some held
  end.

Fixpoint guard_discipline (state : StateRef) (held : bool) (tr : list Event)
  : bool :=
  match tr with
  | [] => true
  | ev :: rest =>
      match guard_step state held ev with
      | Some held' => guard_discipline state held' rest
      | None => false
      end
  end.

(** A release of the lock of [state] that went through. *)
Definition releases (state : StateRef) (ev : Event) : bool :=
  match ev_call ev with
  | StateUnlock st => N.eqb st state && succeeded ev
  | _ => false
  end.

(** An acquisition of the lock of [state]. *)
Definition acquires (state : StateRef) (ev : Event) : bool :=
  match ev_call ev with
  | StateLock st => N.eqb st state
  | _ => false
  end.

(** Every call of [apply] comes right after a release of the lock of
    [state] and, when it returns, is followed at once by an acquisition
    of the lock of [state]; [prev] is the event before [tr]. *)
Fixpoint apply_bracketed_on (state : StateRef) (prev : option Event)
    (tr : list Event) : bool :=
  match tr with
  | [] => true
  | ev :: rest =>
      (if is_kind Forward ev then
         match prev with
         | Some p => releases state p
         | None => false
         end
         && match rest with
            | [] => negb (succeeded ev)
            | next :: _ => succeeded ev && acquires state next
            end
       else true)
      && apply_bracketed_on state (Some ev) rest
  end.

(** The calls of the output loop on [outputs] from offset [i] on, [ns]
    being the nodes [createSelect] returned and [sels] the nodes
    [appendNode] returned. *)
Fixpoint output_loop_trace (state : StateRef) (graph : GraphRef)
    (this_node : NodePtr) (outputs : list variable) (ns sels : list NodePtr)
    (i : Z) : list Event :=
  match outputs, ns, sels with
  | output :: outputs, n :: ns, sel :: sels =>
      Ev (CreateSelect graph this_node i) (inr n)
      :: Ev (AppendNode graph n) (inr sel)
      :: match output with
         | Some v =>
             [Ev (InferTypeFrom sel (data v)) (inr ());
              Ev (SetValueTrace state output sel) (inr ())]
         | None => []
         end
      ++ output_loop_trace state graph this_node outputs ns sels (i + 1)
  | _, _, _ => []
  end.

(** A tracer whose graph already holds the node of a call. *)
Definition tracer_with_node : Tracer :=
  mkTracer {[1%N := mkNode (CppOp 3%N) [] None]} [1%N] [] true ∅ [].

(** * Properties *)

(** ** The flag resolver *)

Section MakeFlags.
Context {T : Type} `{InputSequence T}.

Lemma makeFlags_body_executable f i var :
  is_executable (makeFlags_body f i var)
  = is_executable f || from_option requires_grad false var.
Proof.
  destruct var as [v|]; simpl; [|by rewrite orb_false_r].
  by destruct (grad_fn v).
Qed.

Lemma makeFlags_body_volatile f i var :
  f_is_volatile (makeFlags_body f i var)
  = f_is_volatile f || from_option is_volatile false var.
Proof.
  destruct var as [v|]; simpl; [|by rewrite orb_false_r].
  by destruct (grad_fn v).
Qed.

Lemma makeFlags_loop_executable it : ∀ i f,
  is_executable (makeFlags_loop it i f)
  = is_executable f || existsb (from_option requires_grad false) it.
Proof.
  induction it as [|var rest IH]; intros i f; simpl.
  - by rewrite orb_false_r.
  - by rewrite IH, makeFlags_body_executable, orb_assoc.
Qed.

Lemma makeFlags_loop_volatile it : ∀ i f,
  f_is_volatile (makeFlags_loop it i f)
  = f_is_volatile f || existsb (from_option is_volatile false) it.
Proof.
  induction it as [|var rest IH]; intros i f; simpl.
  - by rewrite orb_false_r.
  - by rewrite IH, makeFlags_body_volatile, orb_assoc.
Qed.

(** The loop invariant on the table: the slots before [i] are final, the
    slots from [i] on still hold the value [resize] gave them. *)
Lemma makeFlags_loop_edges it : ∀ i f pre,
  length pre = i →
  next_functions f = pre ++ replicate (length it) default_edge →
  next_functions (makeFlags_loop it i f) = pre ++ map expected_edge it.
Proof.
  induction it as [|var rest IH]; intros i f pre Hlen Hnf; simpl in *.
  - by rewrite Hnf.
  - rewrite (IH (S i) _ (pre ++ [expected_edge var])).
    + by rewrite <- app_assoc.
    + rewrite length_app; simpl; lia.
    + rewrite <- app_assoc; simpl.
      destruct var as [v|]; simpl; [|done].
      subst i.
      destruct (grad_fn v); simpl; rewrite Hnf.
      all: rewrite insert_app_r_alt by reflexivity.
      all: by rewrite Nat.sub_diag.
Qed.

Lemma makeFlags_edges (inputs : T) :
  next_functions (makeFlags inputs) = map expected_edge (seq_items inputs).
Proof.
  unfold makeFlags; simpl.
  rewrite (makeFlags_loop_edges _ 0%nat _ []); [done..|].
  simpl. by rewrite seq_size_items, resize_nil.
Qed.

Lemma existsb_from_option (g : VariableImpl → bool) (l : list variable) :
  existsb (from_option g false) l = true ↔ ∃ v, Some v ∈ l ∧ g v = true.
Proof.
  rewrite existsb_exists. split.
  - intros ([v|] & Hin & Hg); simpl in Hg; [|done].
    exists v. by rewrite list_elem_of_In.
  - intros (v & Hin & Hg). exists (Some v). by rewrite <- list_elem_of_In.
Qed.

Lemma makeFlags_volatile (inputs : T) :
  f_is_volatile (makeFlags inputs)
  = existsb (from_option is_volatile false) (seq_items inputs).
Proof. unfold makeFlags; simpl. by rewrite makeFlags_loop_volatile. Qed.

Lemma makeFlags_executable (inputs : T) :
  is_executable (makeFlags inputs)
  = existsb (from_option requires_grad false) (seq_items inputs)
    && negb (f_is_volatile (makeFlags inputs)).
Proof.
  unfold makeFlags; simpl.
  by rewrite makeFlags_loop_executable, makeFlags_loop_volatile.
Qed.

(** C1.  The flags [makeFlags] returns: [is_volatile] holds exactly when
    some defined input is volatile, [is_executable] exactly when some
    defined input requires a gradient and [is_volatile] does not hold; on
    the empty sequence both are false and the edge table is empty. *)
Theorem makeFlags_flags (inputs : T) :
  (f_is_volatile (makeFlags inputs) = true
   ↔ ∃ v, Some v ∈ seq_items inputs ∧ is_volatile v = true)
  ∧ (is_executable (makeFlags inputs) = true
     ↔ (∃ v, Some v ∈ seq_items inputs ∧ requires_grad v = true)
       ∧ f_is_volatile (makeFlags inputs) = false)
  ∧ is_executable (makeFlags inputs)
    = existsb (from_option requires_grad false) (seq_items inputs)
      && negb (f_is_volatile (makeFlags inputs))
  ∧ makeFlags (@nil variable) = mkFunctionFlags false false []
  ∧ makeFlags (mkInitializerList []) = mkFunctionFlags false false [].
Proof.
  split_and!; [| | apply makeFlags_executable | done | done].
  - rewrite makeFlags_volatile. apply existsb_from_option.
  - rewrite makeFlags_executable, andb_true_iff, negb_true_iff.
    by rewrite existsb_from_option.
Qed.

(** C2.  The returned flags never have [is_executable] and [is_volatile]
    both set. *)
Theorem makeFlags_executable_not_volatile (inputs : T) :
  is_executable (makeFlags inputs) && f_is_volatile (makeFlags inputs) = false.
Proof.
  rewrite makeFlags_executable.
  destruct (f_is_volatile (makeFlags inputs)); simpl; [|by rewrite !andb_false_r].
  by rewrite andb_false_r.
Qed.

(** C3.  The edge table has one slot per input, whatever the number of
    undefined inputs, and slot [i] holds the edge of input [i]: the
    producing node with its output number, or the gradient accumulator
    with 0 for a leaf, or the default pair for an undefined input. *)
Theorem makeFlags_edge_table (inputs : T) :
  length (next_functions (makeFlags inputs)) = seq_size inputs
  ∧ next_functions (makeFlags inputs) = map expected_edge (seq_items inputs)
  ∧ ∀ i : nat,
      next_functions (makeFlags inputs) !! i
      = match seq_items inputs !! i with
        | Some (Some v) =>
            match grad_fn v with
            | Some fn => Some (Some fn, output_nr v)
            | None => Some (grad_accumulator v, 0)
            end
        | Some None => Some (None, 0)
        | None => None
        end.
Proof.
  rewrite makeFlags_edges. split_and!.
  - by rewrite length_map, seq_size_items.
  - done.
  - intros i. rewrite list_lookup_fmap.
    destruct (seq_items inputs !! i) as [[v|]|]; simpl; [|done..].
    by destruct (grad_fn v).
Qed.

End MakeFlags.

(** The scenarios of the flag resolver: a leaf that requires a gradient
    next to one that does not; a volatile input next to one that
    requires a gradient; an undefined input between two defined ones. *)
Example makeFlags_two_leaves :
  flags_variable_list
    [leaf true false (Some 7%N) 100%N; leaf false false None 101%N]
  = mkFunctionFlags true false [(Some 7%N, 0); (None, 0)].
Proof. reflexivity. Qed.

Example makeFlags_volatile_poisons :
  flags_variable_list
    [leaf true false (Some 7%N) 100%N; leaf false true None 101%N]
  = mkFunctionFlags false true [(Some 7%N, 0); (None, 0)].
Proof. reflexivity. Qed.

Example makeFlags_undefined_gap :
  flags_variable_list
    [Some (mkVariableImpl true false (Some 3%N) 2 None 100%N);
     None;
     leaf true false (Some 7%N) 101%N]
  = mkFunctionFlags true false [(Some 3%N, 2); (None, 0); (Some 7%N, 0)].
Proof. reflexivity. Qed.

(** C10.  The three overloads of [Function::flags] agree: on the same
    values in the same order, the one over a variable list, the one over
    an initializer list and the one over a tensor list (whose tensors
    convert to those values) return the same flags. *)
Theorem flags_overloads_agree {Tensor : Type}
    (variable_of_Tensor : Tensor → variable) (tensors : list Tensor) :
  let values := map variable_of_Tensor tensors in
  flags_TensorList variable_of_Tensor tensors = flags_variable_list values
  ∧ flags_initializer_list (mkInitializerList values)
    = flags_variable_list values
  ∧ ∀ inputs : variable_list,
      flags_initializer_list (mkInitializerList inputs)
      = flags_variable_list inputs.
Proof. by split_and!. Qed.

(** ** Runs of programs *)

Section Runs.
Context {A : Type}.
Implicit Types (p : Prog A) (Q : list Event → outcome A → Prop).

Lemma traces_ret (a : A) Q : Q [] (Returned a) → traces (Ret a) Q.
Proof. intros HQ W h w. exact HQ. Qed.

Lemma traces_throw e Q : Q [] (Raised e) → traces (@Throw A e) Q.
Proof. intros HQ W h w. exact HQ. Qed.

Lemma traces_vis c (k : ret_type c → Prog A) Q :
  (∀ e, Q [Ev c (inl e)] (Raised e)) →
  (∀ r, traces (k r) (λ tr o, Q (Ev c (inr r) :: tr) o)) →
  traces (Vis c k) Q.
Proof.
  intros Hfail Hok W h w. unfold trace_of, outcome_of. simpl.
  destruct (h c w) as [[e|r] w1]; simpl; [apply Hfail|].
  specialize (Hok r W h w1). unfold trace_of, outcome_of in Hok.
  by destruct (run h (k r) w1) as [[tr o] w2].
Qed.

Lemma traces_weaken p Q Q' :
  traces p Q → (∀ tr o, Q tr o → Q' tr o) → traces p Q'.
Proof. intros Hp HQ W h w. apply HQ, Hp. Qed.

Lemma run_bind {B W : Type} (h : handler W) p (k : A → Prog B) (w : W) :
  run h (p ≫= k) w
  = match run h p w with
    | (tr1, Returned a, w1) =>
        let '(tr2, o, w2) := run h (k a) w1 in (tr1 ++ tr2, o, w2)
    | (tr1, Raised e, w1) => (tr1, Raised e, w1)
    end.
Proof.
  revert w. induction p as [a|e|c k' IH]; intros w; simpl.
  - by destruct (run h (k a) w) as [[tr o] w2].
  - done.
  - change (bind (Vis c k') k) with (Vis c (λ r, bind (k' r) k)). simpl.
    destruct (h c w) as [[e|r] w1]; [done|].
    change (bind (k' r) k) with (k' r ≫= k). rewrite IH.
    destruct (run h (k' r) w1) as [[tr1 [a|e]] w2]; [|done].
    by destruct (run h (k a) w2) as [[tr2 o] w3].
Qed.

Lemma traces_bind {B : Type} p (k : A → Prog B) Q
    (R : list Event → outcome B → Prop) :
  traces p Q →
  (∀ tr e, Q tr (Raised e) → R tr (Raised e)) →
  (∀ tr a, Q tr (Returned a) → traces (k a) (λ tr' o, R (tr ++ tr') o)) →
  traces (p ≫= k) R.
Proof.
  intros Hp Hfail Hok W h w. rewrite run_bind.
  specialize (Hp W h w). unfold trace_of, outcome_of in *.
  destruct (run h p w) as [[tr1 [a|e]] w1]; simpl in *; [|by apply Hfail].
  specialize (Hok tr1 a Hp W h w1). unfold trace_of, outcome_of in Hok.
  by destruct (run h (k a) w1) as [[tr2 o] w2].
Qed.

End Runs.

Lemma traces_bind_assoc {A B C : Type} (p : Prog A) (k1 : A → Prog B)
    (k2 : B → Prog C)
    (R : list Event → outcome C → Prop) :
  traces (bind p (λ a, bind (k1 a) k2)) R → traces (bind (bind p k1) k2) R.
Proof.
  intros Hp W h w. specialize (Hp W h w).
  change (bind (bind p k1) k2) with ((p ≫= k1) ≫= k2).
  change (bind p (λ a, bind (k1 a) k2)) with (p ≫= λ a, k1 a ≫= k2) in Hp.
  rewrite !run_bind. rewrite run_bind in Hp.
  destruct (run h p w) as [[tr1 [a|e]] w1]; [|done].
  rewrite run_bind in Hp.
  destruct (run h (k1 a) w1) as [[tr2 [b|e]] w2]; [|done].
  destruct (run h (k2 b) w2) as [[tr3 o] w3]. by rewrite <- app_assoc.
Qed.

(** ** The loops *)

(** A branch on an answer (a null test on the pointer returned). *)
Ltac branch :=
  simpl; unfold mbind, Prog_bind;
  lazymatch goal with
  | |- traces (match ?x with _ => _ end) _ => destruct x
  | |- traces (bind (match ?x with _ => _ end) _) _ => destruct x
  end; simpl.

Lemma traces_bind' {A B : Type} (p : Prog A) (k : A → Prog B) Q
    (R : list Event → outcome B → Prop) :
  traces p Q →
  (∀ tr e, Q tr (Raised e) → R tr (Raised e)) →
  (∀ tr a, Q tr (Returned a) → traces (k a) (λ tr' o, R (tr ++ tr') o)) →
  traces (bind p k) R.
Proof. apply traces_bind. Qed.

(** One step of a run: the next call either raises or answers. *)
Ltac step :=
  simpl; unfold call;
  lazymatch goal with
  | |- traces (Vis _ _) _ => apply traces_vis; [intros ?e | intros ?r]
  | |- traces (Ret _) _ => apply traces_ret
  | |- traces (Throw _) _ => apply traces_throw
  end; simpl.

Lemma add_inputs_traces state this_node inputs :
  traces (add_inputs state this_node inputs)
         (λ tr _, Forall (λ ev, input_event ev = true) tr).
Proof.
  induction inputs as [|input rest IH].
  - step. constructor.
  - step; [by repeat constructor|].
    step; [by repeat constructor|].
    eapply traces_weaken; [apply IH|]. simpl.
    intros tr _ Htr. by repeat constructor.
Qed.

(** The output loop asks for one select node per output, at the offsets
    [i], [i + 1], ... in order. *)
Lemma output_traces_traces state graph this_node outputs : ∀ i,
  traces (output_traces state graph this_node outputs i)
         (λ tr o,
            Forall (λ ev, output_event ev = true) tr
            ∧ ∀ u, o = Returned u →
                select_calls tr
                = (λ off, (graph, this_node, off))
                    <$> seqZ i (Z.of_nat (length outputs))).
Proof.
  assert (Hseq : ∀ i (n : nat),
    seqZ i (Z.of_nat (S n)) = i :: seqZ (i + 1) (Z.of_nat n)).
  { intros i n. rewrite seqZ_cons by lia. f_equal. f_equal; lia. }
  unfold select_calls.
  induction outputs as [|output rest IH]; intros i.
  - step. by split; [constructor|].
  - step; [by split; [repeat constructor|]|].
    step; [by split; [repeat constructor|]|].
    destruct output as [v|].
    + step; [by split; [repeat constructor|]|].
      step; [by split; [repeat constructor|]|].
      eapply traces_weaken; [apply IH|]. simpl.
      intros tr o [Htr Hsel]. split; [by repeat constructor|].
      intros u Ho. cbn [length]. by rewrite Hseq, (Hsel u Ho).
    + simpl. eapply traces_weaken; [apply IH|]. simpl.
      intros tr o [Htr Hsel]. split; [by repeat constructor|].
      intros u Ho. cbn [length]. by rewrite Hseq, (Hsel u Ho).
Qed.

(** The unpacking loop calls [unpack] once per saved variable, in order,
    and returns the list it was given extended by the answers. *)
Lemma unpack_saved_traces fn saved_vars : ∀ acc,
  traces (unpack_saved fn saved_vars acc)
         (λ tr o,
            Forall (λ ev, unpack_event ev = true) tr
            ∧ ∀ res, o = Returned res →
                ∃ vs, res = acc ++ vs
                      ∧ length vs = length saved_vars
                      ∧ unpack_calls tr
                        = zip_with (λ sv v, (sv, fn, inr v)) saved_vars vs).
Proof.
  induction saved_vars as [|saved_var rest IH]; intros acc.
  - step. split; [constructor|].
    intros res [= <-]. exists []. by rewrite app_nil_r.
  - step; [by split; [repeat constructor|]|].
    eapply traces_weaken; [apply IH|]. simpl.
    intros tr o [Htr Hres]. split; [by repeat constructor|].
    intros res ->. destruct (Hres _ eq_refl) as (vs & -> & Hlen & Hcalls).
    exists (r :: vs). rewrite <- app_assoc. simpl.
    split_and!; [done|by rewrite Hlen|].
    unfold unpack_calls in *. simpl. by rewrite Hcalls.
Qed.

(** ** Reading the trace of a loop *)

Lemma collect_app {B : Type} (g : Event → option B) tr1 tr2 :
  collect g (tr1 ++ tr2) = collect g tr1 ++ collect g tr2.
Proof.
  induction tr1 as [|ev tr1 IH]; simpl; [done|].
  destruct (g ev); simpl; by rewrite IH.
Qed.

Lemma collect_quiet {B : Type} (g : Event → option B) (P : Event → bool) tr :
  (∀ ev, P ev = true → g ev = None) →
  Forall (λ ev, P ev = true) tr → collect g tr = [].
Proof.
  intros Hg. induction 1 as [|ev tr Hev _ IH]; simpl; [done|].
  by rewrite (Hg ev Hev), IH.
Qed.

Lemma lock_discipline_under_lock (P : Event → bool) tr rest :
  (∀ ev, P ev = true → under_lock ev = true) →
  Forall (λ ev, P ev = true) tr →
  lock_discipline true (tr ++ rest) = lock_discipline true rest.
Proof.
  intros HP. induction 1 as [|ev tr Hev _ IH]; simpl; [done|].
  apply HP in Hev. unfold under_lock, is_kind in Hev.
  destruct (call_kind (ev_call ev)); simpl in *; congruence.
Qed.

Lemma latest_cons prev ev tr : latest prev (ev :: tr) = latest (Some ev) tr.
Proof. unfold latest. rewrite last_cons. by destruct (last tr). Qed.

Lemma apply_bracketed_quiet (P : Event → bool) tr : ∀ prev rest,
  (∀ ev, P ev = true → is_kind Forward ev = false) →
  Forall (λ ev, P ev = true) tr →
  apply_bracketed prev (tr ++ rest) = apply_bracketed (latest prev tr) rest.
Proof.
  intros prev rest HP Htr. revert prev.
  induction Htr as [|ev tr Hev _ IH]; intros prev; simpl; [done|].
  by rewrite (HP ev Hev), IH, latest_cons.
Qed.

(** The calls of a loop are none of those an observation [g] keeps. *)
Ltac quiet :=
  repeat match goal with
  | H : Forall (λ ev, ?P ev = true) ?tr
    |- context [collect ?g (?tr ++ ?rest)] =>
      rewrite (collect_app g tr rest),
        (collect_quiet g P tr ltac:(by intros [[] ?]) H); simpl
  | H : Forall (λ ev, ?P ev = true) ?tr
    |- context [lock_discipline true (?tr ++ ?rest)] =>
      rewrite (lock_discipline_under_lock P tr rest ltac:(by intros [[] ?]) H);
      simpl
  | H : Forall (λ ev, ?P ev = true) ?tr
    |- context [apply_bracketed ?prev (?tr ++ ?rest)] =>
      rewrite (apply_bracketed_quiet P tr prev rest ltac:(by intros [[] ?]) H);
      simpl
  end.

(** Follows a run through its calls and loops up to its end; [failed]
    closes the case of a call that raises.  The trace of a loop is kept
    as an unknown list of events of the loop's kind. *)
Ltac walk failed :=
  repeat first
    [ progress branch
    | simpl; unfold call, mbind, Prog_bind;
      lazymatch goal with
      | |- traces (bind (bind _ _) _) _ => apply traces_bind_assoc
      | |- traces (Vis _ _) _ =>
          apply traces_vis; [intros ?e; simpl; failed | intros ?r]
      | |- traces (bind (add_inputs _ _ _) _) _ =>
          eapply traces_bind';
          [ apply add_inputs_traces
          | simpl; let tr := fresh "tr" in
            intros tr ?e ?Htr; try rewrite <- (app_nil_r tr); failed
          | simpl; intros ?tr ?a ?Htr ]
      | |- traces (bind (output_traces _ _ _ _ _) _) _ =>
          eapply traces_bind';
          [ apply output_traces_traces
          | simpl; let tr := fresh "tr" in
            intros tr ?e [?Htr _]; try rewrite <- (app_nil_r tr); failed
          | simpl; intros ?tr ?a [?Htr ?Hsel] ]
      | |- traces (bind (unpack_saved _ _ _) _) _ =>
          eapply traces_bind';
          [ apply unpack_saved_traces
          | simpl; let tr := fresh "tr" in
            intros tr ?e [?Htr _]; try rewrite <- (app_nil_r tr); failed
          | simpl; intros ?tr ?a [?Htr ?Hres] ]
      end ];
  simpl.

(** ** Runs of the trace bridge *)

(** Turns a statement about the run of a program against one handler
    into the statement about all its runs. *)
Ltac all_runs :=
  cbv zeta;
  lazymatch goal with
  | |- context [run ?h ?p ?w] =>
      pattern (trace_of (run h p w)), (outcome_of (run h p w));
      lazymatch goal with
      | |- ?Q _ _ => refine ((_ : traces p Q) _ h w)
      end
  end.

(** A membership that the answers recorded in the trace rule out. *)
Ltac not_in H :=
  first [ by apply elem_of_nil in H
        | apply list_elem_of_singleton in H; discriminate H ].

(** C4.  When [tracedApply] returns, it has called [apply] exactly once,
    on this node and on the inputs it was given, and what it returns is
    the list that call returned; this holds for a traceable node and for
    a bridged one alike. *)
Theorem tracedApply_returns_apply_outputs {W : Type} (h : handler W) (w : W)
    (f : Function) (inputs outputs : variable_list) :
  outcome_of (run h (tracedApply f inputs) w) = Returned outputs →
  apply_calls (trace_of (run h (tracedApply f inputs) w))
  = [(getSharedPtr f, inputs, inr outputs)].
Proof.
  all_runs. unfold tracedApply, trace_backward, setUpContextEdge, apply_calls.
  destruct f as [self nm [] [] [ev|] []]; simpl; walk done.
  all: step; try done; intros [= <-]; by quiet.
Qed.

(** C6, as amended.  When [tracedApply] of a node that is neither
    traceable nor transparent returns, the capture step ran exactly when
    [should_trace_backward] is false, and [should_trace_backward] is the
    [in_eval_subgraph] flag of the node's tracing state: it is false
    exactly when the node is not inside another [Eval] subgraph.  In
    that case [saved_variables] was called once, each saved variable was
    unpacked against this node, in order, and the backward subgraph was
    marked once, with the inputs followed by the unpacked values and
    with the outputs [apply] returned.  Inside an [Eval] subgraph none of
    the three was called. *)
Theorem tracedApply_backward_capture {W : Type} (h : handler W) (w : W)
    (f : Function) (inputs outputs : variable_list) :
  is_traceable f = false →
  passes_state_transparently f = false →
  outcome_of (run h (tracedApply f inputs) w) = Returned outputs →
  let tr := trace_of (run h (tracedApply f inputs) w) in
  let should_trace_backward := in_eval_subgraph f in
  if should_trace_backward
  then saved_variables_calls tr = []
       ∧ unpack_calls tr = []
       ∧ backward_subgraph_calls tr = []
  else ∃ saved_vars unpacked,
         saved_variables_calls tr = [(getSharedPtr f, inr (Some saved_vars))]
         ∧ length unpacked = length saved_vars
         ∧ unpack_calls tr
           = zip_with (λ sv v, (sv, getSharedPtr f, inr v)) saved_vars unpacked
         ∧ backward_subgraph_calls tr = [(inputs ++ unpacked, outputs)].
Proof.
  all_runs. unfold tracedApply, trace_backward, setUpContextEdge.
  unfold saved_variables_calls, backward_subgraph_calls.
  destruct f as [self nm [] [] [ev|] []]; simpl.
  all: walk done.
  all: step; try done; intros _ _ [= <-]; unfold unpack_calls.
  all: try (quiet; done).
  all: destruct (Hres _ eq_refl) as (vs & -> & Hlen & Hcalls).
  all: eexists _, vs; quiet; split_and!; [done..| |done].
  all: rewrite collect_app; unfold unpack_calls in Hcalls; rewrite Hcalls.
  all: simpl; by rewrite app_nil_r.
Qed.


(** C8.  A call of [setUpContextEdge] that returns has asked the graph
    owning [node] for exactly one select node, of [node] at
    [ctx_output_nr], appended it, set the type of the appended node to
    the handle type and looked the backward [Eval] up under the inputs
    and outputs; it has assigned the select node to the
    [forward_ctx_select] of that [Eval] if the lookup found one, and
    assigned nothing if it found none. *)
Theorem setUpContextEdge_links {W : Type} (h : handler W) (w : W)
    (node : NodePtr) (ctx_output_nr : Z) (inputs outputs : variable_list) :
  outcome_of (run h (setUpContextEdge node ctx_output_nr inputs outputs) w)
  = Returned () →
  ∃ graph n ctx_select found,
    trace_of (run h (setUpContextEdge node ctx_output_nr inputs outputs) w)
    = [Ev (OwningGraph node) (inr graph);
       Ev (CreateSelect graph node ctx_output_nr) (inr n);
       Ev (AppendNode graph n) (inr ctx_select);
       Ev (SetType ctx_select HandleType) (inr ());
       Ev (GetBackwardEval inputs outputs) (inr found)]
      ++ match found with
         | Some eval => [Ev (SetForwardCtxSelect eval ctx_select) (inr ())]
         | None => []
         end.
Proof.
  all_runs. unfold setUpContextEdge. walk done. all: step; intros _.
  all: repeat match goal with
         | u : ret_type (SetType _ _) |- _ => destruct u
         | u : ret_type (SetForwardCtxSelect _ _) |- _ => destruct u
         end.
  - by eexists _, _, _, (Some _).
  - by eexists _, _, _, None.
Qed.

Lemma fresh_node_fresh (w : Tracer) :
  fresh_node w ≠ 0%N ∧ nodes w !! fresh_node w = None.
Proof.
  pose proof (is_fresh ({[0%N]} ∪ dom (nodes w))) as Hfresh.
  fold (fresh_node w) in Hfresh. split.
  - set_solver.
  - apply not_elem_of_dom. set_solver.
Qed.

(** On the reference tracer [setUpContextEdge] always returns; the graph
    grows by one node, a select of [node] at [ctx_output_nr] of handle
    type, put last; the [forward_ctx_select] field of the [Eval] the
    registry finds, and of no other, is set to that node. *)
Lemma setUpContextEdge_reference_tracer env (w : Tracer) node ctx_output_nr
    inputs outputs :
  let r := run (reference_tracer env)
               (setUpContextEdge node ctx_output_nr inputs outputs) w in
  let sel := fresh_node w in
  outcome_of r = Returned ()
  ∧ nodes w !! sel = None
  ∧ nodes (world_of r)
    = <[sel := mkNode (Select ctx_output_nr) [node] (Some HandleType)]>
        (nodes w)
  ∧ graph_nodes (world_of r) = graph_nodes w ++ [sel]
  ∧ forward_ctx_select (world_of r)
    = match getBackwardEval_fn env inputs outputs with
      | Some eval => <[eval := sel]> (forward_ctx_select w)
      | None => forward_ctx_select w
      end
  ∧ value_traces (world_of r) = value_traces w
  ∧ lock_held (world_of r) = lock_held w
  ∧ backward_subgraphs (world_of r) = backward_subgraphs w.
Proof.
  unfold setUpContextEdge, outcome_of, world_of. simpl.
  destruct (getBackwardEval_fn env inputs outputs) as [eval|]; simpl.
  all: split_and!; try done; try apply fresh_node_fresh.
  all: by rewrite alter_insert_eq.
Qed.

(** ** The lock of the tracing state *)

Lemma add_inputs_guarded state this_node inputs :
  traces (add_inputs state this_node inputs)
    (λ tr _,
       Forall (λ ev, input_event ev = true) tr
       ∧ Forall (λ ev, guard_step state true ev = Some true) tr).
Proof.
  induction inputs as [|input rest IH].
  - step. by split; constructor.
  - assert (Hstep : ∀ r, guard_step state true
                           (Ev (GetValueTrace state input) r) = Some true).
    { intros r. unfold guard_step. simpl. by rewrite N.eqb_refl. }
    step; [by split; repeat constructor|].
    step; [by split; repeat constructor|].
    eapply traces_weaken; [apply IH|]. simpl.
    intros tr _ [Htr Hg]. by split; repeat constructor.
Qed.

Lemma output_traces_guarded state graph this_node outputs : ∀ i,
  traces (output_traces state graph this_node outputs i)
    (λ tr _,
       Forall (λ ev, output_event ev = true) tr
       ∧ Forall (λ ev, guard_step state true ev = Some true) tr).
Proof.
  induction outputs as [|output rest IH]; intros i.
  - step. by split; constructor.
  - assert (Hstep : ∀ var n r, guard_step state true
                                 (Ev (SetValueTrace state var n) r)
                               = Some true).
    { intros var n r. unfold guard_step. simpl. by rewrite N.eqb_refl. }
    step; [by split; repeat constructor|].
    step; [by split; repeat constructor|].
    destruct output as [v|].
    + step; [by split; repeat constructor|].
      step; [by split; repeat constructor|].
      eapply traces_weaken; [apply IH|]. simpl.
      intros tr _ [Htr Hg]. by split; repeat constructor.
    + simpl. eapply traces_weaken; [apply IH|]. simpl.
      intros tr _ [Htr Hg]. by split; repeat constructor.
Qed.

Lemma unpack_saved_guarded state fn saved_vars : ∀ acc,
  traces (unpack_saved fn saved_vars acc)
    (λ tr _,
       Forall (λ ev, unpack_event ev = true) tr
       ∧ Forall (λ ev, guard_step state true ev = Some true) tr).
Proof.
  induction saved_vars as [|saved_var rest IH]; intros acc.
  - step. by split; constructor.
  - step; [by split; repeat constructor|].
    eapply traces_weaken; [apply IH|]. simpl.
    intros tr _ [Htr Hg]. by split; repeat constructor.
Qed.

Lemma guard_discipline_app state tr rest :
  Forall (λ ev, guard_step state true ev = Some true) tr →
  guard_discipline state true (tr ++ rest) = guard_discipline state true rest.
Proof. induction 1 as [|ev tr Hev _ IH]; simpl; [done|]. by rewrite Hev. Qed.

Lemma apply_bracketed_on_quiet state (P : Event → bool) tr : ∀ prev rest,
  (∀ ev, P ev = true → is_kind Forward ev = false) →
  Forall (λ ev, P ev = true) tr →
  apply_bracketed_on state prev (tr ++ rest)
  = apply_bracketed_on state (latest prev tr) rest.
Proof.
  intros prev rest HP Htr. revert prev.
  induction Htr as [|ev tr Hev _ IH]; intros prev; simpl; [done|].
  by rewrite (HP ev Hev), IH, latest_cons.
Qed.

(** As [walk], keeping that the calls of each loop leave the guard of
    [state] owning the lock. *)
Ltac walk_guard failed :=
  repeat first
    [ progress branch
    | simpl; unfold call, mbind, Prog_bind;
      lazymatch goal with
      | |- traces (bind (bind _ _) _) _ => apply traces_bind_assoc
      | |- traces (Vis _ _) _ =>
          apply traces_vis; [intros ?e; simpl; failed | intros ?r]
      | |- traces (bind (add_inputs ?state _ _) _) _ =>
          eapply traces_bind';
          [ apply add_inputs_guarded
          | simpl; let tr := fresh "tr" in
            intros tr ?e [?Htr ?Hg]; try rewrite <- (app_nil_r tr); failed
          | simpl; intros ?tr ?a [?Htr ?Hg] ]
      | |- traces (bind (output_traces ?state _ _ _ _) _) _ =>
          eapply traces_bind';
          [ apply output_traces_guarded
          | simpl; let tr := fresh "tr" in
            intros tr ?e [?Htr ?Hg]; try rewrite <- (app_nil_r tr); failed
          | simpl; intros ?tr ?a [?Htr ?Hg] ]
      | |- traces (bind (unpack_saved _ _ _) _) _ =>
          eapply traces_bind';
          [ apply (unpack_saved_guarded
                     ltac:(match goal with
                           | s : ret_type (GetTracingState _) |- _ => exact s
                           end))
          | simpl; let tr := fresh "tr" in
            intros tr ?e [?Htr ?Hg]; try rewrite <- (app_nil_r tr); failed
          | simpl; intros ?tr ?a [?Htr ?Hg] ]
      end ];
  simpl.

(** Replays the calls of a run against the guard of [state]. *)
Ltac replay :=
  repeat first
    [ rewrite N.eqb_refl
    | progress unfold guard_step, releases, acquires
    | match goal with
      | H : Forall (λ ev, guard_step ?state true ev = Some true) ?tr
        |- context [guard_discipline ?state true (?tr ++ ?rest)] =>
          rewrite (guard_discipline_app state tr rest H)
      | H : Forall (λ ev, ?P ev = true) ?tr
        |- context [apply_bracketed_on ?state ?prev (?tr ++ ?rest)] =>
          rewrite (apply_bracketed_on_quiet state P tr prev rest
                     ltac:(by intros [[] ?]) H)
      end
    | progress simpl ].

(** C9.  In every run of [tracedApply] on a node that is not traceable,
    the first call asks for the tracing state of the inputs, and whatever
    it answers, the lock of that state is the one the guard works on:
    no other lock is touched, the lock is never taken twice nor released
    when not owned, every call that touches the trace graph, the value
    traces of that state or the bookkeeping of the backward pass is made
    while the guard owns the lock, and [apply] is called only while it
    does not; the call of [apply] comes right after the release of that
    lock and, once it returns, is followed at once by its acquisition. *)
Theorem tracedApply_apply_outside_lock {W : Type} (h : handler W) (w : W)
    (f : Function) (inputs : variable_list) :
  is_traceable f = false →
  let r := run h (tracedApply f inputs) w in
  lock_discipline false (trace_of r) = true
  ∧ apply_bracketed None (trace_of r) = true
  ∧ ∃ resp,
      tracing_state_calls (trace_of r) = [(inputs, resp)]
      ∧ match resp with
        | inl e => trace_of r = [Ev (GetTracingState inputs) (inl e)]
        | inr state =>
            guard_discipline state false (trace_of r) = true
            ∧ apply_bracketed_on state None (trace_of r) = true
            ∧ ∀ outputs, outcome_of r = Returned outputs →
                ∃ pre post,
                  trace_of r
                  = pre
                    ++ [Ev (StateUnlock state) (inr ());
                        Ev (Apply (getSharedPtr f) inputs) (inr outputs);
                        Ev (StateLock state) (inr ())]
                    ++ post
                  ∧ apply_calls pre = []
                  ∧ apply_calls post = []
                  ∧ guard_discipline state false pre = true
                  ∧ guard_discipline state true post = true
        end.
Proof.
  all_runs. unfold tracedApply, trace_backward, setUpContextEdge.
  unfold tracing_state_calls.
  destruct f as [self nm [] [] [ev|] []]; simpl.
  1-8: by intros W' h' w'.
  all: apply traces_vis;
    [ intros e0; simpl; intros _; split_and!; [done..|];
      by exists (inl e0) |].
  all: intros state.
  all: walk_guard ltac:(quiet; intros _; split_and!; [done..|];
                        exists (inr state); replay; quiet; by replay).
  all: step; quiet; intros _; (split_and!; [done..|]).
  all: exists (inr state); replay; quiet; replay.
  all: split_and!; try done.
  all: intros outputs [= <-].
  all: repeat match goal with
         | |- context [Ev (StateUnlock _) (inr ?u)] => is_var u; destruct u
         | |- context [Ev (StateLock _) (inr ?u)] => is_var u; destruct u
         end.
  all: eexists (_ :: _ :: _ :: _ :: _ ++ [_]), _.
  all: split; [simpl; rewrite <- app_assoc; simpl; reflexivity|].
  all: split_and!;
    [ by unfold apply_calls; simpl; quiet | by unfold apply_calls; simpl; quiet
    | by replay | by replay ].
Qed.

(** ** The sample runs *)

(** A plain node outside any [Eval] subgraph, with one saved variable:
    the call returns what [apply] returned. *)
Lemma tracedApply_returns_apply_outputs_witness :
  let r := sample_run (sample_node false) (Some [5%N]) None in
  outcome_of r = Returned sample_outputs
  ∧ apply_calls (trace_of r) = [(3%N, sample_inputs, inr sample_outputs)].
Proof.
  split; [vm_compute; reflexivity|].
  apply (tracedApply_returns_apply_outputs
           (reference_tracer (sample_env (Some [5%N]) None)) empty_tracer
           (sample_node false) sample_inputs sample_outputs).
  vm_compute; reflexivity.
Defined.

Lemma tracedApply_backward_capture_witness :
  let f := sample_node false in
  let r := sample_run f (Some [5%N]) None in
  is_traceable f = false
  ∧ passes_state_transparently f = false
  ∧ outcome_of r = Returned sample_outputs
  ∧ ∃ saved_vars unpacked,
      saved_variables_calls (trace_of r) = [(3%N, inr (Some saved_vars))]
      ∧ length unpacked = length saved_vars
      ∧ unpack_calls (trace_of r)
        = zip_with (λ sv v, (sv, 3%N, inr v)) saved_vars unpacked
      ∧ backward_subgraph_calls (trace_of r)
        = [(sample_inputs ++ unpacked, sample_outputs)].
Proof.
  split_and!; [reflexivity | reflexivity | vm_compute; reflexivity |].
  apply (tracedApply_backward_capture
           (reference_tracer (sample_env (Some [5%N]) None)) empty_tracer
           (sample_node false) sample_inputs sample_outputs);
    [reflexivity | reflexivity | vm_compute; reflexivity].
Defined.


Lemma setUpContextEdge_links_witness :
  let r := run (reference_tracer (sample_env None (Some 9%N)))
               (setUpContextEdge 1%N 1 sample_inputs sample_outputs)
               empty_tracer in
  outcome_of r = Returned ()
  ∧ ∃ graph n ctx_select found,
      trace_of r
      = [Ev (OwningGraph 1%N) (inr graph);
         Ev (CreateSelect graph 1%N 1) (inr n);
         Ev (AppendNode graph n) (inr ctx_select);
         Ev (SetType ctx_select HandleType) (inr ());
         Ev (GetBackwardEval sample_inputs sample_outputs) (inr found)]
        ++ match found with
           | Some eval => [Ev (SetForwardCtxSelect eval ctx_select) (inr ())]
           | None => []
           end.
Proof.
  split; [vm_compute; reflexivity|].
  apply (setUpContextEdge_links
           (reference_tracer (sample_env None (Some 9%N))) empty_tracer
           1%N 1 sample_inputs sample_outputs).
  vm_compute; reflexivity.
Defined.

(** A plain node outside any [Eval] subgraph, with one saved variable:
    the reference tracer hands out the tracing state 1, and the guard of
    the call works on the lock of that state. *)
Lemma tracedApply_apply_outside_lock_witness :
  let f := sample_node false in
  let r := sample_run f (Some [5%N]) None in
  is_traceable f = false
  ∧ tracing_state_calls (trace_of r) = [(sample_inputs, inr the_state)]
  ∧ lock_discipline false (trace_of r) = true
  ∧ apply_bracketed None (trace_of r) = true
  ∧ ∃ resp,
      tracing_state_calls (trace_of r) = [(sample_inputs, resp)]
      ∧ match resp with
        | inl e => trace_of r = [Ev (GetTracingState sample_inputs) (inl e)]
        | inr state =>
            guard_discipline state false (trace_of r) = true
            ∧ apply_bracketed_on state None (trace_of r) = true
            ∧ ∀ outputs, outcome_of r = Returned outputs →
                ∃ pre post,
                  trace_of r
                  = pre
                    ++ [Ev (StateUnlock state) (inr ());
                        Ev (Apply (getSharedPtr f) sample_inputs)
                           (inr outputs);
                        Ev (StateLock state) (inr ())]
                    ++ post
                  ∧ apply_calls pre = []
                  ∧ apply_calls post = []
                  ∧ guard_discipline state false pre = true
                  ∧ guard_discipline state true post = true
        end.
Proof.
  split; [reflexivity|]. split; [vm_compute; reflexivity|].
  apply (tracedApply_apply_outside_lock
           (reference_tracer (sample_env (Some [5%N]) None)) empty_tracer
           (sample_node false) sample_inputs).
  reflexivity.
Defined.

(** A plain node inside an [Eval] subgraph ([in_eval_subgraph] set, so
    [should_trace_backward] is true): the call returns and the capture
    step did not run.  The same node outside any [Eval] subgraph: the
    capture step ran.  So the capture step does not run exactly when the
    tracing state reports an enclosing [Eval] subgraph. *)
Lemma capture_iff_nested_counterexample :
  let nested := sample_run (sample_node true) (Some [5%N]) None in
  let outside := sample_run (sample_node false) (Some [5%N]) None in
  outcome_of nested = Returned sample_outputs
  ∧ outcome_of outside = Returned sample_outputs
  ∧ ¬ (saved_variables_calls (trace_of nested) ≠ []
       ↔ in_eval_subgraph (sample_node true) = true)
  ∧ ¬ (backward_subgraph_calls (trace_of nested) ≠ []
       ↔ in_eval_subgraph (sample_node true) = true)
  ∧ ¬ (saved_variables_calls (trace_of outside) ≠ []
       ↔ in_eval_subgraph (sample_node false) = true).
Proof.
  split_and!; [vm_compute; reflexivity..| | |].
  - intros [_ Hcalled]. apply Hcalled; [reflexivity|vm_compute; reflexivity].
  - intros [_ Hcalled]. apply Hcalled; [reflexivity|vm_compute; reflexivity].
  - intros [Hnested _]. enough (false = true) by discriminate.
    apply Hnested. vm_compute. discriminate.
Qed.


(** * Further properties *)

(** ** The flag resolver on lists *)

Lemma existsb_Permutation {A : Type} (g : A → bool) (l1 l2 : list A) :
  l1 ≡ₚ l2 → existsb g l1 = existsb g l2.
Proof.
  induction 1 as [|x l1 l2 _ IH|x y l|l1 l2 l3 _ IH1 _ IH2]; simpl.
  - done.
  - by rewrite IH.
  - by destruct (g x), (g y).
  - by rewrite IH1.
Qed.



(** X1.  The flags of a concatenation are those of its parts put
    together: the edge tables are concatenated, [is_volatile] is the
    disjunction, and [is_executable] is the disjunction unless one part is
    volatile. *)
Theorem makeFlags_app (l1 l2 : variable_list) :
  next_functions (makeFlags (l1 ++ l2))
  = next_functions (makeFlags l1) ++ next_functions (makeFlags l2)
  ∧ f_is_volatile (makeFlags (l1 ++ l2))
    = f_is_volatile (makeFlags l1) || f_is_volatile (makeFlags l2)
  ∧ is_executable (makeFlags (l1 ++ l2))
    = (is_executable (makeFlags l1) || is_executable (makeFlags l2))
      && negb (f_is_volatile (makeFlags l1) || f_is_volatile (makeFlags l2)).
Proof.
  rewrite !makeFlags_executable, !makeFlags_volatile, !makeFlags_edges.
  simpl. unfold id. rewrite map_app, !existsb_app. split_and!; [done..|].
  unfold variable.
  generalize (existsb (from_option requires_grad false) l1),
    (existsb (from_option requires_grad false) l2),
    (existsb (from_option is_volatile false) l1),
    (existsb (from_option is_volatile false) l2).
  by intros [] [] [] [].
Qed.


(** X3.  The two flags do not depend on the order of the inputs, and the
    edge table is reordered the way the inputs are: it holds the same
    edges, and wherever the two input lists hold the same input, be it at
    different positions, the two tables hold the same edge at these
    positions. *)
Theorem makeFlags_Permutation (l1 l2 : variable_list) :
  l1 ≡ₚ l2 →
  is_executable (makeFlags l1) = is_executable (makeFlags l2)
  ∧ f_is_volatile (makeFlags l1) = f_is_volatile (makeFlags l2)
  ∧ next_functions (makeFlags l1) ≡ₚ next_functions (makeFlags l2)
  ∧ ∀ i j : nat,
      l1 !! i = l2 !! j →
      next_functions (makeFlags l1) !! i = next_functions (makeFlags l2) !! j.
Proof.
  intros Hperm.
  rewrite !makeFlags_executable, !makeFlags_volatile, !makeFlags_edges.
  simpl. unfold id.
  rewrite !(existsb_Permutation _ l1 l2 Hperm). split_and!; [done..| |].
  - by apply Permutation_map.
  - intros i j Hij. rewrite !list_lookup_fmap. f_equal. exact Hij.
Qed.

Lemma makeFlags_Permutation_witness :
  let a := leaf true false (Some 7%N) 100%N in
  let b := leaf false true None 101%N in
  [a; None; b] ≡ₚ [b; a; None]
  ∧ is_executable (makeFlags [a; None; b])
    = is_executable (makeFlags [b; a; None])
  ∧ f_is_volatile (makeFlags [a; None; b])
    = f_is_volatile (makeFlags [b; a; None])
  ∧ next_functions (makeFlags [a; None; b])
    ≡ₚ next_functions (makeFlags [b; a; None])
  ∧ ∀ i j : nat,
      [a; None; b] !! i = [b; a; None] !! j →
      next_functions (makeFlags [a; None; b]) !! i
      = next_functions (makeFlags [b; a; None]) !! j.
Proof.
  assert (Hperm : [leaf true false (Some 7%N) 100%N; None;
                   leaf false true None 101%N]
                  ≡ₚ [leaf false true None 101%N;
                      leaf true false (Some 7%N) 100%N; None]).
  { etrans; [apply Permutation_skip, Permutation_swap|].
    apply Permutation_swap. }
  split; [exact Hperm|]. exact (makeFlags_Permutation _ _ Hperm).
Defined.

(** X4.  Every edge of the table that targets a node comes from a
    defined input: it is the producing node of the input with the output
    number of the input, or the gradient accumulator of a leaf input with
    output number 0. *)
Theorem makeFlags_edge_targets {T : Type} `{InputSequence T} (inputs : T)
    (fn : FnRef) (nr : Z) :
  (Some fn, nr) ∈ next_functions (makeFlags inputs) →
  ∃ v, Some v ∈ seq_items inputs
       ∧ ((grad_fn v = Some fn ∧ nr = output_nr v)
          ∨ (grad_fn v = None ∧ grad_accumulator v = Some fn ∧ nr = 0)).
Proof.
  rewrite makeFlags_edges. intros Hin.
  apply list_elem_of_fmap in Hin as ([v|] & Hedge & Hin); [|done].
  exists v. split; [done|]. simpl in Hedge.
  destruct (grad_fn v) as [fn'|]; injection Hedge as -> ->; eauto.
Qed.

Lemma makeFlags_edge_targets_witness :
  let inputs : variable_list :=
    [Some (mkVariableImpl true false (Some 3%N) 2 None 100%N); None] in
  (Some 3%N, 2) ∈ next_functions (makeFlags inputs)
  ∧ ∃ v, Some v ∈ inputs
         ∧ ((grad_fn v = Some 3%N ∧ 2 = output_nr v)
            ∨ (grad_fn v = None ∧ grad_accumulator v = Some 3%N ∧ 2 = 0)).
Proof.
  assert (Hin : (Some 3%N, 2)
                  ∈ next_functions
                      (makeFlags
                         ([Some (mkVariableImpl true false (Some 3%N) 2
                                   None 100%N); None] : variable_list)))
    by (vm_compute; constructor).
  split; [exact Hin|].
  exact (makeFlags_edge_targets
           ([Some (mkVariableImpl true false (Some 3%N) 2 None 100%N); None]
              : variable_list) 3%N 2 Hin).
Defined.

(** X5.  An edge with a null target always has output number 0: the
    slot of an undefined input and the slot of a leaf without accumulator
    are both the pair (null, 0). *)
Theorem makeFlags_null_edges {T : Type} `{InputSequence T} (inputs : T) :
  Forall (λ edge : Edge, is_Some edge.1 ∨ edge.2 = 0)
         (next_functions (makeFlags inputs)).
Proof.
  rewrite makeFlags_edges. apply Forall_fmap, Forall_forall.
  intros [v|] _; simpl; [|by right].
  destruct (grad_fn v); simpl; [by left; eauto|].
  destruct (grad_accumulator v); simpl; [by left; eauto|by right].
Qed.

(** ** The loops, call by call *)

Lemma add_inputs_detail state this_node inputs :
  traces (add_inputs state this_node inputs)
    (λ tr o,
       Forall (λ ev, input_event ev = true) tr
       ∧ ended_by_call tr o
       ∧ ∀ u, o = Returned u →
           ∃ values,
             length values = length inputs
             ∧ value_trace_calls tr
               = zip_with (λ var n, (state, var, inr n)) inputs values
             ∧ add_input_calls tr = (λ n, (this_node, n)) <$> values).
Proof.
  unfold value_trace_calls, add_input_calls.
  induction inputs as [|input rest IH].
  - step. split_and!; [constructor|done|]. intros _ _. by exists [].
  - step; [by split_and!; [repeat constructor|eexists|]|].
    step; [by split_and!; [repeat constructor|eexists|]|].
    eapply traces_weaken; [apply IH|]. simpl.
    intros tr o (Htr & Hend & Hdet). split_and!.
    + by repeat constructor.
    + by destruct o.
    + intros u Ho. destruct (Hdet u Ho) as (values & Hlen & Hvt & Hadd).
      exists (r :: values). simpl. by rewrite Hlen, Hvt, Hadd.
Qed.

Lemma output_traces_detail state graph this_node outputs : ∀ i,
  traces (output_traces state graph this_node outputs i)
    (λ tr o,
       Forall (λ ev, output_event ev = true) tr
       ∧ ended_by_call tr o
       ∧ ∀ u, o = Returned u →
           ∃ sels,
             length sels = length outputs
             ∧ set_value_trace_calls tr
               = output_value_traces state outputs sels
             ∧ infer_type_calls tr = output_types outputs sels).
Proof.
  unfold set_value_trace_calls, infer_type_calls.
  induction outputs as [|output rest IH]; intros i.
  - step. split_and!; [constructor|done|]. intros _ _. by exists [].
  - step; [by split_and!; [repeat constructor|eexists|]|].
    step; [by split_and!; [repeat constructor|eexists|]|].
    destruct output as [v|].
    + step; [by split_and!; [repeat constructor|eexists|]|].
      step; [by split_and!; [repeat constructor|eexists|]|].
      eapply traces_weaken; [apply IH|]. simpl.
      intros tr o (Htr & Hend & Hdet). split_and!.
      * by repeat constructor.
      * by destruct o.
      * intros u Ho. destruct (Hdet u Ho) as (sels & Hlen & Hsv & Hty).
        exists (r0 :: sels). simpl. by rewrite Hlen, Hsv, Hty.
    + simpl. eapply traces_weaken; [apply IH|]. simpl.
      intros tr o (Htr & Hend & Hdet). split_and!.
      * by repeat constructor.
      * by destruct o.
      * intros u Ho. destruct (Hdet u Ho) as (sels & Hlen & Hsv & Hty).
        exists (r0 :: sels). simpl. by rewrite Hlen, Hsv, Hty.
Qed.

Lemma unpack_saved_detail fn saved_vars : ∀ acc,
  traces (unpack_saved fn saved_vars acc)
    (λ tr o,
       Forall (λ ev, unpack_event ev = true) tr
       ∧ ended_by_call tr o
       ∧ ∀ res, o = Returned res →
           ∃ vs, res = acc ++ vs
                 ∧ length vs = length saved_vars
                 ∧ unpack_calls tr
                   = zip_with (λ sv v, (sv, fn, inr v)) saved_vars vs).
Proof.
  induction saved_vars as [|saved_var rest IH]; intros acc.
  - step. split_and!; [constructor|done|].
    intros res [= <-]. exists []. by rewrite app_nil_r.
  - step; [by split_and!; [repeat constructor|eexists|]|].
    eapply traces_weaken; [apply IH|]. simpl.
    intros tr o (Htr & Hend & Hres). split_and!.
    + by repeat constructor.
    + by destruct o.
    + intros res ->. destruct (Hres _ eq_refl) as (vs & -> & Hlen & Hcalls).
      exists (r :: vs). rewrite <- app_assoc. simpl.
      split_and!; [done|by rewrite Hlen|].
      unfold unpack_calls in *. simpl. by rewrite Hcalls.
Qed.

(** As [walk], keeping what each loop called and how it ended. *)
Ltac walk_calls failed :=
  repeat first
    [ progress branch
    | simpl; unfold call, mbind, Prog_bind;
      lazymatch goal with
      | |- traces (bind (bind _ _) _) _ => apply traces_bind_assoc
      | |- traces (Vis _ _) _ =>
          apply traces_vis; [intros ?e; simpl; failed | intros ?r]
      | |- traces (bind (add_inputs _ _ _) _) _ =>
          eapply traces_bind';
          [ apply add_inputs_detail
          | simpl; let tr := fresh "tr" in
            intros tr ?e (?Htr & ?Hend & _);
            try rewrite <- (app_nil_r tr); failed
          | simpl; intros ?tr ?a (?Htr & ?Hend & ?Hin) ]
      | |- traces (bind (output_traces _ _ _ _ _) _) _ =>
          eapply traces_bind';
          [ apply output_traces_detail
          | simpl; let tr := fresh "tr" in
            intros tr ?e (?Htr & ?Hend & _);
            try rewrite <- (app_nil_r tr); failed
          | simpl; intros ?tr ?a (?Htr & ?Hend & ?Hout) ]
      | |- traces (bind (unpack_saved _ _ _) _) _ =>
          eapply traces_bind';
          [ apply unpack_saved_detail
          | simpl; let tr := fresh "tr" in
            intros tr ?e (?Htr & ?Hend & _);
            try rewrite <- (app_nil_r tr); failed
          | simpl; intros ?tr ?a (?Htr & ?Hend & ?Hres) ]
      end ];
  simpl.

(** Rewrites the failures of a loop by how the loop ended. *)
Ltac ended :=
  repeat match goal with
  | H : failures ?tr = _ |- context [collect failure (?tr ++ ?rest)] =>
      rewrite (collect_app failure tr rest); unfold failures in H;
      rewrite H; simpl
  | H : collect failure ?tr = _
    |- context [collect failure (?tr ++ ?rest)] =>
      rewrite (collect_app failure tr rest), H; simpl
  end.

(** ** The capture that is required *)

(** Finds the last calls of a run at the end of its trace. *)
Ltac at_end :=
  repeat lazymatch goal with
         | |- ?l `suffix_of` ?l => reflexivity
         | |- _ `suffix_of` _ :: _ => apply suffix_cons_r
         | |- _ `suffix_of` _ ++ _ => apply suffix_app_r
         end.

(** C5.  A node that is neither traceable nor transparent and whose
    tracing state does not put it inside an [Eval] subgraph requires the
    capture of its backward subgraph.  In every run of [tracedApply] on
    such a node in which no collaborator raises, [saved_variables] is
    called, once and on this node.  If it returns nothing, the call ends
    with the runtime error that carries the name of the node; the error
    is raised at once, the only call after the one of [saved_variables]
    being the release of the lock by the guard; nothing is retried or
    recovered: [apply] was called once, nothing is unpacked, no backward
    subgraph is marked, no context edge is set up.  If it returns a list,
    the call returns. *)
Theorem tracedApply_missing_saved_variables {W : Type} (h : handler W) (w : W)
    (f : Function) (inputs : variable_list) :
  is_traceable f = false →
  passes_state_transparently f = false →
  in_eval_subgraph f = false →
  let r := run h (tracedApply f inputs) w in
  failures (trace_of r) = [] →
  ∃ saved_vars,
    saved_variables_calls (trace_of r) = [(getSharedPtr f, inr saved_vars)]
    ∧ match saved_vars with
      | None =>
          outcome_of r
          = Raised (runtime_error
                      ("saved_variables() needed but not implemented in "
                       +:+ name f))
          ∧ (∃ state,
               tracing_state_calls (trace_of r) = [(inputs, inr state)]
               ∧ [Ev (SavedVariables (getSharedPtr f)) (inr None);
                  Ev (StateUnlock state) (inr ())]
                 `suffix_of` trace_of r)
          ∧ (∃ outputs,
               apply_calls (trace_of r)
               = [(getSharedPtr f, inputs, inr outputs)])
          ∧ unpack_calls (trace_of r) = []
          ∧ backward_subgraph_calls (trace_of r) = []
          ∧ setUpContextEdge_calls (trace_of r) = []
      | Some _ => ∃ outputs, outcome_of r = Returned outputs
      end.
Proof.
  all_runs. unfold tracedApply, trace_backward, setUpContextEdge.
  unfold failures, saved_variables_calls, tracing_state_calls, apply_calls,
    unpack_calls, backward_subgraph_calls, setUpContextEdge_calls.
  destruct f as [self nm [] [] [ev|] []]; simpl.
  all: try by intros W' h' w'.
  all: walk_calls ltac:(unfold ended_by_call in *;
                        repeat match goal with
                               | H : ∃ _, _ |- _ => destruct H as [? H]
                               end;
                        ended; intros _ _ _ Hf; discriminate Hf).
  all: step; unfold ended_by_call in *; ended; quiet; intros _ _ _ _.
  all: eexists; (split; [reflexivity|]); simpl.
  all: try by eexists.
  all: repeat match goal with
         | |- context [Ev (StateUnlock _) (inr ?u)] => is_var u; destruct u
         end.
  all: split_and!; [done | | by eexists | done..].
  all: eexists; split; [reflexivity|]; at_end.
Qed.

(** A plain node outside any [Eval] subgraph whose [saved_variables] is
    not implemented: the call ends with the error naming the node. *)
Lemma tracedApply_missing_saved_variables_witness :
  let f := sample_node false in
  let r := run (reference_tracer (sample_env None None))
               (tracedApply f sample_inputs) empty_tracer in
  (is_traceable f = false
   ∧ passes_state_transparently f = false
   ∧ in_eval_subgraph f = false
   ∧ failures (trace_of r) = [])
  ∧ outcome_of r
    = Raised (runtime_error
                "saved_variables() needed but not implemented in AddBackward")
  ∧ ∃ saved_vars,
      saved_variables_calls (trace_of r) = [(getSharedPtr f, inr saved_vars)]
      ∧ match saved_vars with
        | None =>
            outcome_of r
            = Raised (runtime_error
                        ("saved_variables() needed but not implemented in "
                         +:+ name f))
            ∧ (∃ state,
                 tracing_state_calls (trace_of r)
                 = [(sample_inputs, inr state)]
                 ∧ [Ev (SavedVariables (getSharedPtr f)) (inr None);
                    Ev (StateUnlock state) (inr ())]
                   `suffix_of` trace_of r)
            ∧ (∃ outputs,
                 apply_calls (trace_of r)
                 = [(getSharedPtr f, sample_inputs, inr outputs)])
            ∧ unpack_calls (trace_of r) = []
            ∧ backward_subgraph_calls (trace_of r) = []
            ∧ setUpContextEdge_calls (trace_of r) = []
        | Some _ => ∃ outputs, outcome_of r = Returned outputs
        end.
Proof.
  split; [split_and!; [reflexivity..|vm_compute; reflexivity]|].
  split; [vm_compute; reflexivity|].
  apply (tracedApply_missing_saved_variables
           (reference_tracer (sample_env None None)) empty_tracer
           (sample_node false) sample_inputs);
    [reflexivity..|vm_compute; reflexivity].
Defined.

(** ** Further runs of the trace bridge *)

(** X6.  A traceable node is completely transparent to the tracer: the
    run is the one call of [apply] on the inputs, whose outcome is the
    outcome of [tracedApply]; no tracing state is asked for, no lock is
    taken, no node is created. *)
Theorem tracedApply_traceable {W : Type} (h : handler W) (w : W)
    (f : Function) (inputs : variable_list) :
  is_traceable f = true →
  let r := run h (tracedApply f inputs) w in
  ∃ resp,
    trace_of r = [Ev (Apply (getSharedPtr f) inputs) resp]
    ∧ outcome_of r
      = match resp with
        | inr outputs => Returned outputs
        | inl e => Raised e
        end.
Proof.
  intros Ht. unfold tracedApply, trace_of, outcome_of. rewrite Ht. simpl.
  destruct (h (Apply (getSharedPtr f) inputs) w) as [[e|outputs] w1].
  - by exists (inl e).
  - by exists (inr outputs).
Qed.

Lemma tracedApply_traceable_witness :
  let r := run (reference_tracer (sample_env None None))
               (tracedApply sample_traceable sample_inputs) empty_tracer in
  is_traceable sample_traceable = true
  ∧ ∃ resp,
      trace_of r = [Ev (Apply (getSharedPtr sample_traceable) sample_inputs)
                       resp]
      ∧ outcome_of r
        = match resp with
          | inr outputs => Returned outputs
          | inl e => Raised e
          end.
Proof.
  split; [reflexivity|].
  apply (tracedApply_traceable
           (reference_tracer (sample_env None None)) empty_tracer
           sample_traceable sample_inputs).
  reflexivity.
Defined.

(** X7.  A node that passes state transparently gets no backward
    capture and no context edge, in any run: [saved_variables] is not
    called, nothing is unpacked, no backward subgraph is marked,
    [setUpContextEdge] is not entered, and the [forward_ctx_select] of an
    [Eval] is neither read nor assigned, even if the node is an [Eval]. *)
Theorem tracedApply_transparent {W : Type} (h : handler W) (w : W)
    (f : Function) (inputs : variable_list) :
  is_traceable f = false →
  passes_state_transparently f = true →
  let tr := trace_of (run h (tracedApply f inputs) w) in
  saved_variables_calls tr = []
  ∧ unpack_calls tr = []
  ∧ backward_subgraph_calls tr = []
  ∧ setUpContextEdge_calls tr = []
  ∧ backward_eval_lookups tr = []
  ∧ forward_ctx_reads tr = []
  ∧ forward_ctx_assignments tr = []
  ∧ set_type_calls tr = [].
Proof.
  all_runs. unfold tracedApply, trace_backward, setUpContextEdge.
  unfold saved_variables_calls, unpack_calls, backward_subgraph_calls,
    setUpContextEdge_calls, backward_eval_lookups, forward_ctx_reads,
    forward_ctx_assignments, set_type_calls.
  destruct f as [self nm [] [] ev nested]; simpl.
  1, 2, 4: by intros W' h' w'.
  walk ltac:(quiet; done). step. by quiet.
Qed.

Lemma tracedApply_transparent_witness :
  let f := sample_transparent in
  let tr := trace_of (run (reference_tracer (sample_env None (Some 9%N)))
                          (tracedApply f sample_inputs) empty_tracer) in
  is_traceable f = false
  ∧ passes_state_transparently f = true
  ∧ saved_variables_calls tr = []
  ∧ unpack_calls tr = []
  ∧ backward_subgraph_calls tr = []
  ∧ setUpContextEdge_calls tr = []
  ∧ backward_eval_lookups tr = []
  ∧ forward_ctx_reads tr = []
  ∧ forward_ctx_assignments tr = []
  ∧ set_type_calls tr = [].
Proof.
  split; [reflexivity|]. split; [reflexivity|].
  apply (tracedApply_transparent
           (reference_tracer (sample_env None (Some 9%N))) empty_tracer
           sample_transparent sample_inputs); reflexivity.
Defined.

(** X8.  If [apply] raises, [tracedApply] of a node that is not
    traceable raises the same exception and makes no call after it: the
    lock, released before [apply], is not taken again; no select node is
    asked for, no value trace is recorded, no capture and no context edge
    are made.  The node created for the call has been appended to the
    graph by then. *)
Theorem tracedApply_apply_raises {W : Type} (h : handler W) (w : W)
    (f : Function) (inputs : variable_list) (e : exception) :
  is_traceable f = false →
  apply_calls (trace_of (run h (tracedApply f inputs) w))
  = [(getSharedPtr f, inputs, inl e)] →
  let tr := trace_of (run h (tracedApply f inputs) w) in
  outcome_of (run h (tracedApply f inputs) w) = Raised e
  ∧ failures tr = [(Apply (getSharedPtr f) inputs, e)]
  ∧ (∃ state, tracing_state_calls tr = [(inputs, inr state)]
              ∧ lock_calls tr = [(true, state); (false, state)])
  ∧ (∃ graph this_node appended,
       cpp_op_calls tr = [(graph, getSharedPtr f, inr this_node)]
       ∧ append_calls tr = [(graph, this_node, inr appended)])
  ∧ select_calls tr = []
  ∧ set_value_trace_calls tr = []
  ∧ saved_variables_calls tr = []
  ∧ setUpContextEdge_calls tr = [].
Proof.
  all_runs. unfold tracedApply, trace_backward, setUpContextEdge.
  unfold apply_calls, failures, tracing_state_calls, lock_calls,
    cpp_op_calls, append_calls, select_calls, set_value_trace_calls,
    saved_variables_calls, setUpContextEdge_calls.
  destruct f as [self nm [] tp ev nested]; simpl.
  { by intros W' h' w'. }
  walk_calls ltac:(unfold ended_by_call in *; quiet; intros _ Heq;
                   first [ discriminate Heq
                         | injection Heq as ->; ended; quiet;
                           by repeat first [split | eexists] ]).
  all: step; quiet; intros _ Heq; discriminate Heq.
Qed.

Lemma tracedApply_apply_raises_witness :
  let f := sample_node false in
  let e := foreign_exception 42%N in
  let r := run (reference_tracer (failing_env e))
               (tracedApply f sample_inputs) empty_tracer in
  is_traceable f = false
  ∧ apply_calls (trace_of r) = [(getSharedPtr f, sample_inputs, inl e)]
  ∧ outcome_of r = Raised e
  ∧ failures (trace_of r) = [(Apply (getSharedPtr f) sample_inputs, e)]
  ∧ (∃ state, tracing_state_calls (trace_of r) = [(sample_inputs, inr state)]
              ∧ lock_calls (trace_of r) = [(true, state); (false, state)])
  ∧ (∃ graph this_node appended,
       cpp_op_calls (trace_of r) = [(graph, getSharedPtr f, inr this_node)]
       ∧ append_calls (trace_of r) = [(graph, this_node, inr appended)])
  ∧ select_calls (trace_of r) = []
  ∧ set_value_trace_calls (trace_of r) = []
  ∧ saved_variables_calls (trace_of r) = []
  ∧ setUpContextEdge_calls (trace_of r) = [].
Proof.
  split; [reflexivity|]. split; [vm_compute; reflexivity|].
  apply (tracedApply_apply_raises
           (reference_tracer (failing_env (foreign_exception 42%N)))
           empty_tracer (sample_node false) sample_inputs
           (foreign_exception 42%N)); [reflexivity|vm_compute; reflexivity].
Defined.

(** X9.  [tracedApply] fails of its own accord in one case only.  In a
    run in which no collaborator raises, either it returns the outputs of
    its one call of [apply], and then [saved_variables] was not called or
    returned a list; or [saved_variables] was called once, on this node,
    and returned nothing, and then it raises the error that names the
    node, which only happens to a node that is neither traceable nor
    transparent nor inside an [Eval] subgraph. *)
Theorem tracedApply_own_failure {W : Type} (h : handler W) (w : W)
    (f : Function) (inputs : variable_list) :
  failures (trace_of (run h (tracedApply f inputs) w)) = [] →
  (∃ outputs,
     outcome_of (run h (tracedApply f inputs) w) = Returned outputs
     ∧ apply_calls (trace_of (run h (tracedApply f inputs) w))
       = [(getSharedPtr f, inputs, inr outputs)]
     ∧ (saved_variables_calls (trace_of (run h (tracedApply f inputs) w)) = []
        ∨ ∃ saved_vars,
            saved_variables_calls (trace_of (run h (tracedApply f inputs) w))
            = [(getSharedPtr f, inr (Some saved_vars))]))
  ∨ (outcome_of (run h (tracedApply f inputs) w)
     = Raised (missing_saved_variables f)
     ∧ saved_variables_calls (trace_of (run h (tracedApply f inputs) w))
       = [(getSharedPtr f, inr None)]
     ∧ is_traceable f = false
     ∧ passes_state_transparently f = false
     ∧ in_eval_subgraph f = false).
Proof.
  all_runs. unfold tracedApply, trace_backward, setUpContextEdge.
  unfold failures, apply_calls, saved_variables_calls.
  destruct f as [self nm [] [] [ev|] []]; simpl.
  all: walk_calls ltac:(unfold ended_by_call in *;
                        repeat match goal with
                               | H : ∃ _, _ |- _ => destruct H as [? H]
                               end;
                        ended; intros Hf; discriminate Hf).
  all: step; unfold ended_by_call in *; ended; quiet; intros _.
  all: first [ by left; eexists; split_and!; [done..|left]
             | by left; eexists; split_and!; [done..|right; eexists]
             | by right ].
Qed.

Lemma tracedApply_own_failure_witness :
  let f := sample_node false in
  let r := run (reference_tracer (sample_env None None))
               (tracedApply f sample_inputs) empty_tracer in
  failures (trace_of r) = []
  ∧ ((∃ outputs,
        outcome_of r = Returned outputs
        ∧ apply_calls (trace_of r)
          = [(getSharedPtr f, sample_inputs, inr outputs)]
        ∧ (saved_variables_calls (trace_of r) = []
           ∨ ∃ saved_vars,
               saved_variables_calls (trace_of r)
               = [(getSharedPtr f, inr (Some saved_vars))]))
     ∨ (outcome_of r = Raised (missing_saved_variables f)
        ∧ saved_variables_calls (trace_of r) = [(getSharedPtr f, inr None)]
        ∧ is_traceable f = false
        ∧ passes_state_transparently f = false
        ∧ in_eval_subgraph f = false)).
Proof.
  split; [vm_compute; reflexivity|].
  apply (tracedApply_own_failure
           (reference_tracer (sample_env None None)) empty_tracer
           (sample_node false) sample_inputs).
  vm_compute; reflexivity.
Defined.

(** X10.  How the node of the call is wired when [tracedApply] of a node
    that is not traceable returns: the tracing state is asked for once,
    for the inputs; one node is created for this function; the value
    trace of every input, undefined ones included, is resolved on that
    state, in order, and added as an input of the node; a node that is
    an [Eval] and not transparent gets one more input, added last, the
    [forward_ctx_select] read from it. *)
Theorem tracedApply_inputs_wired {W : Type} (h : handler W) (w : W)
    (f : Function) (inputs outputs : variable_list) :
  is_traceable f = false →
  outcome_of (run h (tracedApply f inputs) w) = Returned outputs →
  let tr := trace_of (run h (tracedApply f inputs) w) in
  ∃ state graph this_node values extra,
    tracing_state_calls tr = [(inputs, inr state)]
    ∧ cpp_op_calls tr = [(graph, getSharedPtr f, inr this_node)]
    ∧ length values = length inputs
    ∧ value_trace_calls tr
      = zip_with (λ var n, (state, var, inr n)) inputs values
    ∧ add_input_calls tr = ((λ n, (this_node, n)) <$> values) ++ extra
    ∧ if passes_state_transparently f
      then extra = [] ∧ forward_ctx_reads tr = []
      else match this_eval f with
           | Some eval =>
               ∃ ctx, forward_ctx_reads tr = [(eval, inr ctx)]
                      ∧ extra = [(this_node, ctx)]
           | None => extra = [] ∧ forward_ctx_reads tr = []
           end.
Proof.
  all_runs. unfold tracedApply, trace_backward, setUpContextEdge.
  unfold tracing_state_calls, cpp_op_calls, forward_ctx_reads.
  destruct f as [self nm [] [] [ev|] []]; simpl.
  all: walk_calls done.
  all: step; try done; intros _ [= <-].
  all: destruct (Hin _ eq_refl) as (values & Hlen & Hvt & Hadd).
  all: unfold value_trace_calls, add_input_calls in *; simpl.
  all: eexists _, _, _, values, _.
  all: quiet.
  all: rewrite (collect_app value_trace_call), (collect_app add_input_call),
         Hvt, Hadd; simpl; quiet.
  all: split_and!; try done; try (by rewrite app_nil_r); eauto.
Qed.

Lemma tracedApply_inputs_wired_witness :
  let f := sample_eval true in
  let r := run (reference_tracer (sample_env None None))
               (tracedApply f sample_inputs) empty_tracer in
  is_traceable f = false
  ∧ outcome_of r = Returned sample_outputs
  ∧ ∃ state graph this_node values extra,
      tracing_state_calls (trace_of r) = [(sample_inputs, inr state)]
      ∧ cpp_op_calls (trace_of r) = [(graph, getSharedPtr f, inr this_node)]
      ∧ length values = length sample_inputs
      ∧ value_trace_calls (trace_of r)
        = zip_with (λ var n, (state, var, inr n)) sample_inputs values
      ∧ add_input_calls (trace_of r)
        = ((λ n, (this_node, n)) <$> values) ++ extra
      ∧ ∃ ctx, forward_ctx_reads (trace_of r) = [(9%N, inr ctx)]
               ∧ extra = [(this_node, ctx)].
Proof.
  split; [reflexivity|]. split; [vm_compute; reflexivity|].
  apply (tracedApply_inputs_wired
           (reference_tracer (sample_env None None)) empty_tracer
           (sample_eval true) sample_inputs sample_outputs);
    [reflexivity|vm_compute; reflexivity].
Defined.

Lemma output_value_traces_variables state outputs : ∀ sels,
  length sels = length outputs →
  (λ c : StateRef * variable * NodePtr, c.1.2)
    <$> output_value_traces state outputs sels
  = filter is_Some outputs.
Proof.
  induction outputs as [|[v|] outputs IH]; intros [|sel sels] Hlen;
    simplify_eq/=; [done| |].
  - rewrite filter_cons_True by eauto. f_equal. by apply IH.
  - rewrite filter_cons_False by (by intros [? ?]). by apply IH.
Qed.

(** ** The output loop, call by call *)

Lemma output_traces_exact state graph this_node outputs : ∀ i,
  traces (output_traces state graph this_node outputs i)
    (λ tr o,
       Forall (λ ev, output_event ev = true) tr
       ∧ ended_by_call tr o
       ∧ ∀ u, o = Returned u →
           ∃ ns sels,
             length ns = length outputs
             ∧ length sels = length outputs
             ∧ tr = output_loop_trace state graph this_node outputs ns sels i).
Proof.
  induction outputs as [|output rest IH]; intros i.
  - step. split_and!; [constructor|done|]. intros _ _. by exists [], [].
  - step; [by split_and!; [repeat constructor|eexists|]|].
    step; [by split_and!; [repeat constructor|eexists|]|].
    destruct output as [v|].
    + step; [by split_and!; [repeat constructor|eexists|]|].
      step; [by split_and!; [repeat constructor|eexists|]|].
      eapply traces_weaken; [apply IH|]. simpl.
      intros tr o (Htr & Hend & Hdet). split_and!.
      * by repeat constructor.
      * by destruct o.
      * intros u Ho. destruct (Hdet u Ho) as (ns & sels & Hn & Hs & ->).
        exists (r :: ns), (r0 :: sels). simpl. destruct r1, r2.
        by rewrite Hn, Hs.
    + simpl. eapply traces_weaken; [apply IH|]. simpl.
      intros tr o (Htr & Hend & Hdet). split_and!.
      * by repeat constructor.
      * by destruct o.
      * intros u Ho. destruct (Hdet u Ho) as (ns & sels & Hn & Hs & ->).
        exists (r :: ns), (r0 :: sels). simpl. by rewrite Hn, Hs.
Qed.

Lemma output_loop_trace_value_traces state graph this_node outputs :
  ∀ ns sels i,
    length ns = length outputs →
    set_value_trace_calls
      (output_loop_trace state graph this_node outputs ns sels i)
    = output_value_traces state outputs sels.
Proof.
  unfold set_value_trace_calls.
  induction outputs as [|[v|] outputs IH]; intros [|n ns] [|sel sels] i Hn;
    simplify_eq/=; try done.
  all: by rewrite IH.
Qed.

Lemma output_loop_trace_types state graph this_node outputs :
  ∀ ns sels i,
    length ns = length outputs →
    infer_type_calls
      (output_loop_trace state graph this_node outputs ns sels i)
    = output_types outputs sels.
Proof.
  unfold infer_type_calls.
  induction outputs as [|[v|] outputs IH]; intros [|n ns] [|sel sels] i Hn;
    simplify_eq/=; try done.
  all: by rewrite IH.
Qed.

(** As [walk_calls], keeping the calls of the output loop one by one. *)
Ltac walk_outputs failed :=
  repeat first
    [ progress branch
    | simpl; unfold call, mbind, Prog_bind;
      lazymatch goal with
      | |- traces (bind (bind _ _) _) _ => apply traces_bind_assoc
      | |- traces (Vis _ _) _ =>
          apply traces_vis; [intros ?e; simpl; failed | intros ?r]
      | |- traces (bind (add_inputs _ _ _) _) _ =>
          eapply traces_bind';
          [ apply add_inputs_detail
          | simpl; let tr := fresh "tr" in
            intros tr ?e (?Htr & ?Hend & _);
            try rewrite <- (app_nil_r tr); failed
          | simpl; intros ?tr ?a (?Htr & ?Hend & ?Hin) ]
      | |- traces (bind (output_traces _ _ _ _ _) _) _ =>
          eapply traces_bind';
          [ apply output_traces_exact
          | simpl; let tr := fresh "tr" in
            intros tr ?e (?Htr & ?Hend & _);
            try rewrite <- (app_nil_r tr); failed
          | simpl; intros ?tr ?a (?Htr & ?Hend & ?Hout) ]
      | |- traces (bind (unpack_saved _ _ _) _) _ =>
          eapply traces_bind';
          [ apply unpack_saved_detail
          | simpl; let tr := fresh "tr" in
            intros tr ?e (?Htr & ?Hend & _);
            try rewrite <- (app_nil_r tr); failed
          | simpl; intros ?tr ?a (?Htr & ?Hend & ?Hres) ]
      end ];
  simpl.

(** X11.  What a returning [tracedApply] of a node that is not traceable
    does with the outputs.  Right after [apply] returned them and the
    lock of the tracing state of the call was taken again, it goes
    through them in order: for the output at position [i] it asks the
    graph of the call for the select node of the node of the call at
    offset [i] and appends that node to the graph; if the output is
    defined, it infers the type of the node [appendNode] returned from
    the data of the output and then records that node as the value trace
    of the output on the tracing state of the call; an undefined output
    gets neither.  No other type is inferred and no other value trace is
    recorded in the run, so the variables given a value trace are exactly
    the defined outputs, in order. *)
Theorem tracedApply_outputs_recorded {W : Type} (h : handler W) (w : W)
    (f : Function) (inputs outputs : variable_list) :
  is_traceable f = false →
  outcome_of (run h (tracedApply f inputs) w) = Returned outputs →
  let tr := trace_of (run h (tracedApply f inputs) w) in
  ∃ state graph this_node ns sels pre post,
    tracing_state_calls tr = [(inputs, inr state)]
    ∧ cpp_op_calls tr = [(graph, getSharedPtr f, inr this_node)]
    ∧ length ns = length outputs
    ∧ length sels = length outputs
    ∧ tr = pre
           ++ [Ev (Apply (getSharedPtr f) inputs) (inr outputs);
               Ev (StateLock state) (inr ())]
           ++ output_loop_trace state graph this_node outputs ns sels 0
           ++ post
    ∧ set_value_trace_calls tr = output_value_traces state outputs sels
    ∧ infer_type_calls tr = output_types outputs sels
    ∧ (λ c : StateRef * variable * NodePtr, c.1.2)
        <$> set_value_trace_calls tr
      = filter is_Some outputs.
Proof.
  all_runs. unfold tracedApply, trace_backward, setUpContextEdge.
  unfold tracing_state_calls, cpp_op_calls.
  destruct f as [self nm [] [] [ev|] []]; simpl.
  all: walk_outputs done.
  all: step; try done; intros _ [= <-].
  all: destruct (Hout _ eq_refl) as (ns & sels & Hn & Hs & Heq).
  all: match type of Heq with
       | _ = output_loop_trace ?state ?graph ?this_node _ _ _ _ =>
           pose proof (output_loop_trace_value_traces
                         state graph this_node _ _ sels 0 Hn) as Hsv;
           pose proof (output_loop_trace_types
                         state graph this_node _ _ sels 0 Hn) as Hty
       end.
  all: rewrite <- Heq in Hsv, Hty.
  all: unfold set_value_trace_calls, infer_type_calls in *; simpl.
  all: repeat match goal with
         | |- context [Ev (StateLock _) (inr ?u)] => is_var u; destruct u
         end.
  all: eexists _, _, _, ns, sels, (_ :: _ :: _ :: _ :: _ ++ [_; _]), _.
  all: split_and!;
         [ by quiet | by quiet | done | done
         | rewrite <- Heq; simpl; rewrite <- app_assoc; simpl; reflexivity
         | quiet; rewrite (collect_app set_value_trace_call), Hsv; simpl;
           quiet; by rewrite ?app_nil_r
         | quiet; rewrite (collect_app infer_type_call), Hty; simpl;
           quiet; by rewrite ?app_nil_r
         | quiet; rewrite (collect_app set_value_trace_call), Hsv; simpl;
           quiet; rewrite ?app_nil_r;
           by apply output_value_traces_variables ].
Qed.

Lemma tracedApply_outputs_recorded_witness :
  let f := sample_node true in
  let r := run (reference_tracer (sample_env None None))
               (tracedApply f sample_inputs) empty_tracer in
  is_traceable f = false
  ∧ outcome_of r = Returned sample_outputs
  ∧ ∃ state graph this_node ns sels pre post,
      tracing_state_calls (trace_of r) = [(sample_inputs, inr state)]
      ∧ cpp_op_calls (trace_of r) = [(graph, getSharedPtr f, inr this_node)]
      ∧ length ns = length sample_outputs
      ∧ length sels = length sample_outputs
      ∧ trace_of r
        = pre
          ++ [Ev (Apply (getSharedPtr f) sample_inputs) (inr sample_outputs);
              Ev (StateLock state) (inr ())]
          ++ output_loop_trace state graph this_node sample_outputs ns sels 0
          ++ post
      ∧ set_value_trace_calls (trace_of r)
        = output_value_traces state sample_outputs sels
      ∧ infer_type_calls (trace_of r) = output_types sample_outputs sels
      ∧ (λ c : StateRef * variable * NodePtr, c.1.2)
          <$> set_value_trace_calls (trace_of r)
        = filter is_Some sample_outputs.
Proof.
  split; [reflexivity|]. split; [vm_compute; reflexivity|].
  apply (tracedApply_outputs_recorded
           (reference_tracer (sample_env None None)) empty_tracer
           (sample_node true) sample_inputs sample_outputs);
    [reflexivity|vm_compute; reflexivity].
Defined.

(** X12.  The lock guard over a run of [tracedApply] on a node that is
    not traceable in which no collaborator raises, whether the run
    returns or ends in the missing-[saved_variables] error: the lock of
    the tracing state of the call, and no other, is taken, released,
    taken and released, so the run ends with the lock released. *)
Theorem tracedApply_lock_sequence {W : Type} (h : handler W) (w : W)
    (f : Function) (inputs : variable_list) :
  is_traceable f = false →
  failures (trace_of (run h (tracedApply f inputs) w)) = [] →
  ∃ state,
    tracing_state_calls (trace_of (run h (tracedApply f inputs) w))
    = [(inputs, inr state)]
    ∧ lock_calls (trace_of (run h (tracedApply f inputs) w))
      = [(true, state); (false, state); (true, state); (false, state)].
Proof.
  all_runs. unfold tracedApply, trace_backward, setUpContextEdge.
  unfold failures, tracing_state_calls, lock_calls.
  destruct f as [self nm [] [] [ev|] []]; simpl.
  1-8: by intros W' h' w'.
  all: walk_calls ltac:(unfold ended_by_call in *;
                        repeat match goal with
                               | H : ∃ _, _ |- _ => destruct H as [? H]
                               end;
                        ended; intros _ Hf; discriminate Hf).
  all: step; quiet; intros _ _; by eexists.
Qed.

Lemma tracedApply_lock_sequence_witness :
  let f := sample_node false in
  let r := run (reference_tracer (sample_env None None))
               (tracedApply f sample_inputs) empty_tracer in
  is_traceable f = false
  ∧ failures (trace_of r) = []
  ∧ ∃ state,
      tracing_state_calls (trace_of r) = [(sample_inputs, inr state)]
      ∧ lock_calls (trace_of r)
        = [(true, state); (false, state); (true, state); (false, state)].
Proof.
  split; [reflexivity|]. split; [vm_compute; reflexivity|].
  apply (tracedApply_lock_sequence
           (reference_tracer (sample_env None None)) empty_tracer
           (sample_node false) sample_inputs);
    [reflexivity|vm_compute; reflexivity].
Defined.

(** X13.  [setUpContextEdge] assigns the [forward_ctx_select] of an
    [Eval] only as its last call, after everything before went through,
    in any run, even one in which the assignment itself raises: the graph
    of the given node was asked for a select node of that node at
    [ctx_output_nr], the node it returned was appended to that graph, the
    node [appendNode] returned was given the handle type, the lookup
    under the inputs and outputs answered that [Eval], and the node
    assigned is the one [appendNode] returned. *)
Theorem setUpContextEdge_assignment {W : Type} (h : handler W) (w : W)
    (node : NodePtr) (ctx_output_nr : Z) (inputs outputs : variable_list)
    (eval : EvalRef) (assigned : NodePtr) :
  (eval, assigned)
    ∈ forward_ctx_assignments
        (trace_of
           (run h (setUpContextEdge node ctx_output_nr inputs outputs) w)) →
  let tr :=
    trace_of (run h (setUpContextEdge node ctx_output_nr inputs outputs) w) in
  ∃ graph n resp,
    tr = [Ev (OwningGraph node) (inr graph);
          Ev (CreateSelect graph node ctx_output_nr) (inr n);
          Ev (AppendNode graph n) (inr assigned);
          Ev (SetType assigned HandleType) (inr ());
          Ev (GetBackwardEval inputs outputs) (inr (Some eval));
          Ev (SetForwardCtxSelect eval assigned) resp].
Proof.
  all_runs. unfold setUpContextEdge, forward_ctx_assignments.
  walk ltac:(intros Hin;
             first [ by apply elem_of_nil in Hin
                   | apply list_elem_of_singleton in Hin;
                     injection Hin as -> ->;
                     repeat match goal with
                            | u : ret_type (SetType _ _) |- _ => destruct u
                            end;
                     by eexists _, _, (inl _) ]).
  all: step; intros Hin.
  - apply list_elem_of_singleton in Hin. injection Hin as -> ->.
    repeat match goal with
           | u : ret_type (SetType _ _) |- _ => destruct u
           end.
    by eexists _, _, (inr _).
  - by apply elem_of_nil in Hin.
Qed.

(** The context edge of a node the graph already holds: the select node
    is a new one, and it is the one assigned. *)
Lemma setUpContextEdge_assignment_witness :
  let tr := trace_of
              (run (reference_tracer (sample_env None (Some 9%N)))
                   (setUpContextEdge 1%N 1 sample_inputs sample_outputs)
                   tracer_with_node) in
  (9%N, 2%N) ∈ forward_ctx_assignments tr
  ∧ ∃ graph n resp,
      tr = [Ev (OwningGraph 1%N) (inr graph);
            Ev (CreateSelect graph 1%N 1) (inr n);
            Ev (AppendNode graph n) (inr 2%N);
            Ev (SetType 2%N HandleType) (inr ());
            Ev (GetBackwardEval sample_inputs sample_outputs)
               (inr (Some 9%N));
            Ev (SetForwardCtxSelect 9%N 2%N) resp].
Proof.
  split; [vm_compute; constructor|].
  apply (setUpContextEdge_assignment
           (reference_tracer (sample_env None (Some 9%N))) tracer_with_node
           1%N 1 sample_inputs sample_outputs 9%N 2%N).
  vm_compute; constructor.
Defined.
